(** * granola-mcp: reliability and consistency layer

    A shallow embedding of the outbox store ([outbox.SQLiteStore]), the
    cached repository decorator ([cache.CachedRepository]) and the wiring of
    the resilience configuration in the composition root ([main]), together
    with models of the circuit breaker / resilient repository and of the
    outbox dispatcher, each followed by the properties established about it.

    Conventions.
    - A [time.Time] is an instant: a number of nanoseconds since the Unix
      epoch ([Z]).  [time.Now()] is an explicit argument of every operation
      that reads the clock.  Instants are compared as numbers: the SQLite
      driver stores a UTC time in a text form whose order is the
      chronological one for the years 0000 to 9999.
    - A SQLite table is the list of its rows in insertion (rowid) order when
      order matters (outbox), and a finite map from its primary key when it
      does not (cache).  Statements on the database are assumed to execute
      (no I/O failure); a constraint violation is the only modelled error.
    - A Go [(T, error)] result is a [Result T], a lone [error] an
      [option error].
    - Functions of the Go standard library and of packages that are not part
      of this development ([encoding/json], [time], [domain.New], the inner
      repository, the inner event dispatcher) are [Variable]s of a [Section];
      module [Fixtures] gives executable stand-ins for them. *)

From Stdlib Require Import ZArith List Lia Bool.
From Stdlib Require Import Sorting.Sorted Sorting.Permutation.
From stdpp Require Import gmap strings list.

Local Open Scope string_scope.
Local Open Scope Z_scope.

(** ** Common types *)

Abbreviation Time := Z (only parsing).
Abbreviation Duration := Z (only parsing).
Abbreviation error := string (only parsing).

Inductive Result (A : Type) : Type :=
| Ok (a : A)
| Err (e : error).
Arguments Ok {A} a.
Arguments Err {A} e.

Definition is_ok {A} (r : Result A) : bool :=
  match r with Ok _ => true | Err _ => false end.

(** ** Outbox store (package outbox) *)

Module Outbox.

(** [outbox.Entry].  [Payload] is a Go byte slice, [None] being the nil
    slice; [SyncedAt] is a nullable pointer. *)
Record Entry := mkEntry {
  ID : string;
  EventType : string;
  Payload : option string;
  Status : string;
  CreatedAt : Time;
  SyncedAt : option Time;
  Attempts : Z
}.

(** Modelled from the spec: the schema of table [outbox_entries] (section 6),
    which [localstore.InitSchema], not among the sources, creates: id
    (primary key), event_type, payload, status, created_at, synced_at
    (nullable), attempts.  The
    attempts column is a 64-bit SQLite INTEGER; it starts at 0 and grows by
    one per MarkFailed, so it is kept as an unbounded [Z]. *)
Record Row := mkRow {
  r_id : string;
  r_event_type : string;
  r_payload : string;
  r_status : string;
  r_created_at : Time;
  r_synced_at : option Time;
  r_attempts : Z
}.

(** [SQLiteStore]: the table behind the [*sql.DB] handle. *)
Record SQLiteStore := mkStore { outbox_entries : list Row }.

Definition NewSQLiteStore : SQLiteStore := mkStore [].

Definition has_id (id : string) (rows : list Row) : bool :=
  existsb (fun r => String.eqb (r_id r) id) rows.

Definition find_row (id : string) (s : SQLiteStore) : option Row :=
  List.find (fun r => String.eqb (r_id r) id) (outbox_entries s).

(** [Append]: INSERT with status 'pending' and attempts 0; the status and
    attempts of the argument are not read.  The insert fails on a duplicate
    primary key and then changes nothing. *)
Definition Append (entry : Entry) (s : SQLiteStore) : option error * SQLiteStore :=
  let payload := match Payload entry with
                 | None => "{}"
                 | Some p => p
                 end in
  if has_id (ID entry) (outbox_entries s)
  then (Some "UNIQUE constraint failed: outbox_entries.id", s)
  else (None,
        mkStore (outbox_entries s ++
                 [mkRow (ID entry) (EventType entry) payload "pending"
                        (CreatedAt entry) None 0])).

(** ORDER BY created_at ASC, as a stable insertion sort over rowid order. *)
Fixpoint insert_by_created (r : Row) (l : list Row) : list Row :=
  match l with
  | [] => [r]
  | x :: t => if r_created_at r <? r_created_at x
              then r :: x :: t
              else x :: insert_by_created r t
  end.

Definition order_by_created (l : list Row) : list Row :=
  fold_right insert_by_created [] l.

Definition is_pending (r : Row) : bool := String.eqb (r_status r) "pending".

(** [rows.Scan] of one row into an [Entry]. *)
Definition scan (r : Row) : Entry :=
  mkEntry (r_id r) (r_event_type r) (Some (r_payload r)) (r_status r)
          (r_created_at r) (r_synced_at r) (r_attempts r).

(** [ListPending]: SELECT ... WHERE status = 'pending' ORDER BY created_at ASC. *)
Definition ListPending (s : SQLiteStore) : Result (list Entry) :=
  Ok (List.map scan (order_by_created (List.filter is_pending (outbox_entries s)))).

Definition update_where (id : string) (f : Row -> Row) (rows : list Row) : list Row :=
  List.map (fun r => if String.eqb (r_id r) id then f r else r) rows.

(** [MarkSynced]: UPDATE ... SET status = 'synced', synced_at = now WHERE id = ?. *)
Definition MarkSynced (now : Time) (id : string) (s : SQLiteStore) : option error * SQLiteStore :=
  (None,
   mkStore (update_where id
              (fun r => mkRow (r_id r) (r_event_type r) (r_payload r) "synced"
                              (r_created_at r) (Some now) (r_attempts r))
              (outbox_entries s))).

(** [MarkFailed]: UPDATE ... SET status = 'failed', attempts = attempts + 1 WHERE id = ?. *)
Definition MarkFailed (id : string) (s : SQLiteStore) : option error * SQLiteStore :=
  (None,
   mkStore (update_where id
              (fun r => mkRow (r_id r) (r_event_type r) (r_payload r) "failed"
                              (r_created_at r) (r_synced_at r) (r_attempts r + 1))
              (outbox_entries s))).

(** Sequences of store operations. *)
Inductive Op :=
| OpAppend (entry : Entry)
| OpMarkSynced (now : Time) (id : string)
| OpMarkFailed (id : string).

Definition step (o : Op) (s : SQLiteStore) : SQLiteStore :=
  match o with
  | OpAppend e => snd (Append e s)
  | OpMarkSynced now id => snd (MarkSynced now id s)
  | OpMarkFailed id => snd (MarkFailed id s)
  end.

Definition run (ops : list Op) (s : SQLiteStore) : SQLiteStore :=
  fold_left (fun s o => step o s) ops s.

Definition status_of (id : string) (s : SQLiteStore) : option string :=
  option_map r_status (find_row id s).

Definition attempts_of (id : string) (s : SQLiteStore) : option Z :=
  option_map r_attempts (find_row id s).

End Outbox.

(** ** Properties of the outbox store *)

Module OutboxSpec.
Import Outbox.




Lemma insert_by_created_perm (r : Row) (l : list Row) :
  Permutation (insert_by_created r l) (r :: l).
Proof.
  induction l as [|x t IH]; simpl.
  - apply Permutation_refl.
  - destruct (r_created_at r <? r_created_at x).
    + apply Permutation_refl.
    + eapply Permutation_trans; [apply perm_skip, IH | apply perm_swap].
Qed.

Lemma order_by_created_perm (l : list Row) :
  Permutation (order_by_created l) l.
Proof.
  induction l as [|x t IH]; simpl.
  - apply Permutation_refl.
  - eapply Permutation_trans; [apply insert_by_created_perm|].
    apply perm_skip, IH.
Qed.




(** ** Lookup of a row through the update statements *)

Lemma find_map_same_key (id : string) (g : Row -> Row) (l : list Row) :
  (forall r, r_id (g r) = r_id r) ->
  List.find (fun r => String.eqb (r_id r) id) (List.map g l)
  = option_map g (List.find (fun r => String.eqb (r_id r) id) l).
Proof.
  intros Hg. induction l as [|x t IH]; simpl; [reflexivity|].
  rewrite Hg. destruct (String.eqb (r_id x) id); [reflexivity | exact IH].
Qed.

Lemma find_row_update (id id' : string) (f : Row -> Row) (s : SQLiteStore) :
  (forall r, r_id (f r) = r_id r) ->
  List.find (fun r => String.eqb (r_id r) id) (update_where id' f (outbox_entries s))
  = option_map (fun r => if String.eqb (r_id r) id' then f r else r) (find_row id s).
Proof.
  intros Hf. unfold update_where, find_row. apply find_map_same_key.
  intros r. destruct (String.eqb (r_id r) id'); [apply Hf | reflexivity].
Qed.

Lemma find_some_key (id : string) (l : list Row) (r : Row) :
  List.find (fun r => String.eqb (r_id r) id) l = Some r -> r_id r = id /\ In r l.
Proof.
  intros H. apply find_some in H. destruct H as [Hin He].
  apply String.eqb_eq in He. split; assumption.
Qed.

Lemma find_app_some (id : string) (l l' : list Row) (r : Row) :
  List.find (fun r => String.eqb (r_id r) id) l = Some r ->
  List.find (fun r => String.eqb (r_id r) id) (l ++ l') = Some r.
Proof.
  induction l as [|x t IH]; simpl; [discriminate|].
  destruct (String.eqb (r_id x) id); [trivial | exact IH].
Qed.














End OutboxSpec.

(** ** Domain shapes consumed by the cache (package domain/meeting)

    The cache sees a meeting through its getters [ID], [Title], [Datetime],
    [Source], [Participants], through [ClearDomainEvents], and through the
    constructor [domain.New]; it sees an event through a type assertion. *)

Module Domain.

Abbreviation MeetingID := string (only parsing).
Abbreviation Source := string (only parsing).

Record Participant := mkParticipant {
  Name : string;
  Email : string;
  Role : string
}.

(** Modelled from the spec: domain events (section 6: an event exposes its
    type and the entity id it concerns); package domain/meeting is not among
    the sources.  The constructors are the two the sources call:
    [NewMeetingCreatedEvent(id, title, datetime)] and
    [NewTranscriptUpdatedEvent(id, count)]. *)
Inductive DomainEvent :=
| MeetingCreated (id : MeetingID) (title : string) (datetime : Time)
| TranscriptUpdated (id : MeetingID) (count : Z).

(** The meeting an event concerns. *)
Definition EventMeetingID (e : DomainEvent) : MeetingID :=
  match e with
  | MeetingCreated id _ _ => id
  | TranscriptUpdated id _ => id
  end.

(** A meeting, as the getters the sources call show it. *)
Record Meeting := mkMeeting {
  ID : MeetingID;
  Title : string;
  Datetime : Time;
  MSource : Source;
  Participants : list Participant;
  DomainEvents : list DomainEvent
}.

Definition ClearDomainEvents (m : Meeting) : Meeting :=
  mkMeeting (ID m) (Title m) (Datetime m) (MSource m) (Participants m) [].

(** The zero [time.Time] (January 1, year 1, 00:00:00 UTC), which
    [time.Parse] returns together with an error. *)
Definition zero_time : Time := -62135596800000000000.

End Domain.

(** ** Cached repository (package cache) *)

Module Cache.
Import Domain.

(** [meetingCacheEntry], the serialized form of a meeting. *)
Record meetingCacheEntry := mkCacheEntry {
  e_ID : string;
  e_Title : string;
  e_Datetime : string;
  e_Source : string
}.

(** Calls received by the decorated repository, in order. *)
Inductive InnerCall :=
| CallFindByID (id : MeetingID)
| CallSync (since : option Time).

Section Repository.

(** The inner [domain.Repository]: its state and the two operations that
    touch the cache (List, GetTranscript, SearchTranscripts and GetActionItems
    are handed to it as they are).  A successful FindByID returns a meeting,
    never a nil pointer. *)
Variable Inner : Type.
Variable inner_FindByID : MeetingID -> Inner -> Result Meeting * Inner.
Variable inner_Sync : option Time -> Inner -> Result (list DomainEvent) * Inner.

(** [domain.New]: which arguments it rejects, and the events it records on
    the meeting it builds. *)
Variable New_rejects : MeetingID -> string -> Time -> Source -> list Participant -> option error.
Variable New_events : MeetingID -> string -> Time -> Source -> list DomainEvent.

(** [time.Time.Format(time.RFC3339)] and [time.Parse(time.RFC3339, _)]. *)
Variable Format_RFC3339 : Time -> string.
Variable Parse_RFC3339 : string -> option Time.

(** [json.Marshal] and [json.Unmarshal] at type [meetingCacheEntry]. *)
Variable json_Marshal : meetingCacheEntry -> option string.
Variable json_Unmarshal : string -> option meetingCacheEntry.

Definition New (id : MeetingID) (title : string) (datetime : Time) (source : Source)
    (participants : list Participant) : Result Meeting :=
  match New_rejects id title datetime source participants with
  | Some e => Err e
  | None => Ok (mkMeeting id title datetime source participants
                          (New_events id title datetime source))
  end.

(** [CachedRepository]: the inner repository, table [cache_entries]
    (key -> value, expires_at) and the ttl; [inner_calls] records the calls
    made on [inner]. *)
Record CachedRepository := mkRepo {
  inner : Inner;
  db : gmap string (string * Time);
  ttl : Duration;
  inner_calls : list InnerCall
}.

(** [NewCachedRepository]: the schema is created if it is not there, the rows
    of an existing table are kept. *)
Definition NewCachedRepository (i : Inner) (d : gmap string (string * Time)) (t : Duration)
    : Result CachedRepository :=
  Ok (mkRepo i d t []).

Definition with_db (r : CachedRepository) (d : gmap string (string * Time)) : CachedRepository :=
  mkRepo (inner r) d (ttl r) (inner_calls r).

Definition with_inner (r : CachedRepository) (i : Inner) (c : InnerCall) : CachedRepository :=
  mkRepo i (db r) (ttl r) (inner_calls r ++ [c]).

(** [get]: SELECT value FROM cache_entries WHERE key = ? AND expires_at > now. *)
Definition get (now : Time) (key : string) (r : CachedRepository) : option string :=
  match db r !! key with
  | Some (value, expires_at) => if now <? expires_at then Some value else None
  | None => None
  end.

(** [set]: INSERT OR REPLACE ... VALUES (key, value, now + ttl). *)
Definition set (now : Time) (key value : string) (r : CachedRepository) : CachedRepository :=
  with_db r (<[key := (value, now + ttl r)]> (db r)).

(** [Evict]: DELETE FROM cache_entries WHERE expires_at <= now. *)
Definition Evict (now : Time) (r : CachedRepository) : option error * CachedRepository :=
  (None, with_db r (filter (fun kv => now < snd (snd kv)) (db r))).

Definition toMeetingCacheEntry (m : Meeting) : meetingCacheEntry :=
  mkCacheEntry (ID m) (Title m) (Format_RFC3339 (Datetime m)) (MSource m).

Definition cacheKey (id : MeetingID) : string := "meeting:" ++ id.

(** The first half of [FindByID]: the meeting rebuilt from an unexpired
    entry, when the entry decodes and [domain.New] accepts it. *)
Definition from_cache (now : Time) (id : MeetingID) (r : CachedRepository) : option Meeting :=
  match get now (cacheKey id) r with
  | Some data =>
      match json_Unmarshal data with
      | Some entry =>
          let dt := match Parse_RFC3339 (e_Datetime entry) with
                    | Some t => t
                    | None => zero_time
                    end in
          match New (e_ID entry) (e_Title entry) dt (e_Source entry) [] with
          | Ok m => Some (ClearDomainEvents m)
          | Err _ => None
          end
      | None => None
      end
  | None => None
  end.

(** [FindByID]; [now] is the clock read by [get], [now'] the one read by
    [set] after the inner call returned. *)
Definition FindByID (now now' : Time) (id : MeetingID) (r : CachedRepository)
    : Result Meeting * CachedRepository :=
  match from_cache now id r with
  | Some m => (Ok m, r)
  | None =>
      let (res, i) := inner_FindByID id (inner r) in
      let r1 := with_inner r i (CallFindByID id) in
      match res with
      | Err e => (Err e, r1)
      | Ok m =>
          match json_Marshal (toMeetingCacheEntry m) with
          | Some data => (Ok m, set now' (cacheKey id) data r1)
          | None => (Ok m, r1)
          end
      end
  end.

(** The loop of [Sync]: one DELETE per event that is a [MeetingCreated]. *)
Definition invalidate (d : gmap string (string * Time)) (e : DomainEvent)
    : gmap string (string * Time) :=
  match e with
  | MeetingCreated id _ _ => delete (cacheKey id) d
  | _ => d
  end.

Definition Sync (since : option Time) (r : CachedRepository)
    : Result (list DomainEvent) * CachedRepository :=
  let (res, i) := inner_Sync since (inner r) in
  let r1 := with_inner r i (CallSync since) in
  match res with
  | Err e => (Err e, r1)
  | Ok events => (Ok events, with_db r1 (fold_left invalidate events (db r1)))
  end.

Definition count_FindByID (id : MeetingID) (calls : list InnerCall) : nat :=
  length (List.filter (fun c => match c with
                                | CallFindByID id' => String.eqb id' id
                                | _ => false
                                end) calls).

(** *** Properties of the cached repository *)

(** The entry is rebuilt by [domain.New]: what a cache hit needs beyond an
    unexpired row. *)
Definition snapshot_rebuilds (m : Meeting) : Prop :=
  exists data entry,
    json_Marshal (toMeetingCacheEntry m) = Some data /\
    json_Unmarshal data = Some entry /\
    New_rejects (e_ID entry) (e_Title entry)
      (match Parse_RFC3339 (e_Datetime entry) with
       | Some t => t
       | None => zero_time
       end)
      (e_Source entry) [] = None.

Lemma get_Some (now : Time) (key value : string) (r : CachedRepository) :
  get now key r = Some value <->
  exists expires_at, db r !! key = Some (value, expires_at) /\ now < expires_at.
Proof.
  unfold get. destruct (db r !! key) as [[v e]|] eqn:E.
  - destruct (Z.ltb_spec now e) as [Hlt|Hge]; split.
    + intros [= <-]. exists e. split; [reflexivity | exact Hlt].
    + intros [e' [[= -> ->] _]]. reflexivity.
    + discriminate.
    + intros [e' [[= -> ->] Hlt]]. lia.
  - split; [discriminate | intros [e' [H _]]; discriminate].
Qed.

Lemma get_None (now : Time) (key : string) (r : CachedRepository) :
  get now key r = None <->
  db r !! key = None \/
  exists value expires_at, db r !! key = Some (value, expires_at) /\ expires_at <= now.
Proof.
  unfold get. destruct (db r !! key) as [[v e]|] eqn:E.
  - destruct (Z.ltb_spec now e) as [Hlt|Hge]; split.
    + discriminate.
    + intros [H|[v' [e' [[= -> ->] Hle]]]]; [discriminate | lia].
    + intros _. right. exists v, e. split; [reflexivity | exact Hge].
    + reflexivity.
  - split; [intros _; left; reflexivity | reflexivity].
Qed.

Lemma get_Evict (swept now : Time) (key : string) (r : CachedRepository) :
  swept <= now -> get now key (snd (Evict swept r)) = get now key r.
Proof.
  intros Hle. unfold get, Evict, with_db; simpl.
  destruct (filter _ (db r) !! key) as [[v' e']|] eqn:F.
  - apply map_lookup_filter_Some in F. destruct F as [F _].
    rewrite F. reflexivity.
  - apply map_lookup_filter_None in F.
    destruct (db r !! key) as [[v e]|] eqn:E; [|reflexivity].
    destruct F as [F|F]; [discriminate|].
    specialize (F (v, e) eq_refl). simpl in F.
    destruct (Z.ltb_spec now e); [lia | reflexivity].
Qed.

Lemma get_set_same (now now' : Time) (key value : string) (r : CachedRepository) :
  now < now' + ttl r -> get now key (set now' key value r) = Some value.
Proof.
  intros H. unfold get, set, with_db; simpl.
  rewrite lookup_insert_eq.
  destruct (Z.ltb_spec now (now' + ttl r)); [reflexivity | lia].
Qed.

Lemma from_cache_miss_calls_inner (now now' : Time) (id : MeetingID) (r : CachedRepository) :
  from_cache now id r = None ->
  inner_calls (snd (FindByID now now' id r)) = (inner_calls r ++ [CallFindByID id])%list.
Proof.
  intros H. unfold FindByID. rewrite H.
  destruct (inner_FindByID id (inner r)) as [[m|e] i]; simpl; [|reflexivity].
  destruct (json_Marshal (toMeetingCacheEntry m)); reflexivity.
Qed.

(** C6. A cache entry is served exactly when the time of reading is strictly
    before its expires_at: [get] on an absent key, or on a key whose
    expires_at is at or before now, finds nothing, and then FindByID goes to
    the inner repository.  No sweep is needed: [get] answers the same after
    an [Evict] run at or before the time of reading. *)
Theorem get_serves_iff_unexpired (now : Time) (key : string) (r : CachedRepository) :
  (forall value, get now key r = Some value <->
     exists expires_at, db r !! key = Some (value, expires_at) /\ now < expires_at) /\
  (get now key r = None <->
     db r !! key = None \/
     exists value expires_at, db r !! key = Some (value, expires_at) /\ expires_at <= now) /\
  (forall swept, swept <= now -> get now key (snd (Evict swept r)) = get now key r) /\
  (forall id now', key = cacheKey id -> get now key r = None ->
     inner_calls (snd (FindByID now now' id r)) = (inner_calls r ++ [CallFindByID id])%list).
Proof.
  split; [intros value; apply get_Some|].
  split; [apply get_None|].
  split; [intros swept; apply get_Evict|].
  intros id now' -> H. apply from_cache_miss_calls_inner.
  unfold from_cache. rewrite H. reflexivity.
Qed.

Lemma FindByID_miss_inv (now now' : Time) (id : MeetingID) (r r1 : CachedRepository) (m : Meeting) :
  from_cache now id r = None ->
  FindByID now now' id r = (Ok m, r1) ->
  exists i, inner_FindByID id (inner r) = (Ok m, i) /\
    r1 = match json_Marshal (toMeetingCacheEntry m) with
         | Some data => set now' (cacheKey id) data (with_inner r i (CallFindByID id))
         | None => with_inner r i (CallFindByID id)
         end.
Proof.
  intros Hmiss. unfold FindByID. rewrite Hmiss.
  destruct (inner_FindByID id (inner r)) as [[m0|e] i]; [|discriminate].
  destruct (json_Marshal (toMeetingCacheEntry m0)) as [data|] eqn:E;
    intros [= <- <-]; exists i; rewrite E; split; reflexivity.
Qed.

(** C4. When a first FindByID(X) misses the cache and returns the meeting
    fetched from the inner repository, a second FindByID(X) whose read
    happens before the TTL has elapsed since the entry was written also
    succeeds and leaves the inner repository alone: over the two calls the
    inner FindByID is invoked exactly once.  (The stored snapshot is assumed
    to decode and to be accepted by domain.New.) *)
Theorem second_FindByID_hits_cache (now1 now1' now2 now2' : Time) (id : MeetingID)
    (r r1 : CachedRepository) (m : Meeting) :
  from_cache now1 id r = None ->
  FindByID now1 now1' id r = (Ok m, r1) ->
  now2 < now1' + ttl r ->
  snapshot_rebuilds m ->
  exists m2,
    FindByID now2 now2' id r1 = (Ok m2, r1) /\
    inner_calls r1 = (inner_calls r ++ [CallFindByID id])%list /\
    inner_calls (snd (FindByID now2 now2' id r1)) = (inner_calls r ++ [CallFindByID id])%list.
Proof.
  intros Hmiss H1 Httl (data & entry & Hm & Hu & Hn).
  destruct (FindByID_miss_inv _ _ _ _ _ _ Hmiss H1) as (i & Hi & ->).
  rewrite Hm.
  set (r1 := set now1' (cacheKey id) data (with_inner r i (CallFindByID id))).
  assert (Hget : get now2 (cacheKey id) r1 = Some data).
  { apply get_set_same. exact Httl. }
  assert (Hhit : exists m2, from_cache now2 id r1 = Some m2).
  { unfold from_cache. rewrite Hget, Hu. unfold New. rewrite Hn. eexists; reflexivity. }
  destruct Hhit as [m2 Hhit]. exists m2.
  assert (HF : FindByID now2 now2' id r1 = (Ok m2, r1)).
  { unfold FindByID. rewrite Hhit. reflexivity. }
  split; [exact HF|]. rewrite HF. split; reflexivity.
Qed.

(** C10. The cached snapshot keeps four fields of a meeting: id, title,
    datetime formatted as RFC3339, source.  Every FindByID served from the
    cache returns, without calling the inner repository, a meeting rebuilt
    from such a snapshot with no participants and no pending domain events;
    so it differs from any meeting that carries participants or events, as
    the one the inner repository returned on the miss may. *)
Theorem cache_hit_drops_participants_and_events (now now' : Time) (id : MeetingID)
    (r : CachedRepository) (m' : Meeting) :
  from_cache now id r = Some m' ->
  FindByID now now' id r = (Ok m', r) /\
  Participants m' = [] /\
  DomainEvents m' = [] /\
  (exists data entry,
     get now (cacheKey id) r = Some data /\ json_Unmarshal data = Some entry /\
     ID m' = e_ID entry /\ Title m' = e_Title entry /\ MSource m' = e_Source entry /\
     Datetime m' = match Parse_RFC3339 (e_Datetime entry) with
                   | Some t => t
                   | None => zero_time
                   end) /\
  (forall m, Participants m <> [] \/ DomainEvents m <> [] -> m' <> m) /\
  (forall m, toMeetingCacheEntry m
             = mkCacheEntry (ID m) (Title m) (Format_RFC3339 (Datetime m)) (MSource m)) /\
  (forall m ps evs,
     toMeetingCacheEntry (mkMeeting (ID m) (Title m) (Datetime m) (MSource m) ps evs)
     = toMeetingCacheEntry m).
Proof.
  intros Hhit.
  assert (HF : FindByID now now' id r = (Ok m', r)).
  { unfold FindByID. rewrite Hhit. reflexivity. }
  unfold from_cache in Hhit.
  destruct (get now (cacheKey id) r) as [data|] eqn:Hget; [|discriminate].
  destruct (json_Unmarshal data) as [entry|] eqn:Hu; [|discriminate].
  unfold New in Hhit.
  destruct (New_rejects _ _ _ _ _); [discriminate|].
  injection Hhit as <-. simpl.
  split; [exact HF|]. split; [reflexivity|]. split; [reflexivity|].
  split.
  { exists data, entry. repeat split; reflexivity || assumption. }
  split.
  { intros m [Hp|He] Heq; subst m; simpl in *; congruence. }
  split; reflexivity.
Qed.

(** What [Sync] leaves in the cache: the row of a key survives exactly when
    no returned event is a MeetingCreated for that key. *)
Lemma fold_invalidate_lookup (events : list DomainEvent) (d : gmap string (string * Time))
    (key : string) :
  fold_left invalidate events d !! key
  = if existsb (fun e => match e with
                         | MeetingCreated id _ _ => String.eqb (cacheKey id) key
                         | _ => false
                         end) events
    then None else d !! key.
Proof.
  revert d. induction events as [|e events IH]; intros d; [reflexivity|].
  cbn [fold_left existsb]. rewrite IH.
  destruct e as [id t dt|id n]; cbn [invalidate orb]; [|reflexivity].
  destruct (String.eqb_spec (cacheKey id) key) as [->|Hne]; cbn [orb].
  - rewrite lookup_delete_eq. destruct (existsb _ events); reflexivity.
  - rewrite lookup_delete_ne by exact Hne. reflexivity.
Qed.

Lemma Sync_invalidates_only_MeetingCreated (since : option Time) (r : CachedRepository)
    (events : list DomainEvent) (key : string) :
  fst (Sync since r) = Ok events ->
  db (snd (Sync since r)) !! key
  = if existsb (fun e => match e with
                         | MeetingCreated id _ _ => String.eqb (cacheKey id) key
                         | _ => false
                         end) events
    then None else db r !! key.
Proof.
  unfold Sync. destruct (inner_Sync since (inner r)) as [[evs|e] i]; simpl; [|discriminate].
  intros [= ->]. apply fold_invalidate_lookup.
Qed.

End Repository.

End Cache.

(** ** Test doubles for the collaborators of the cached repository

    A JSON codec for [meetingCacheEntry], RFC 3339 rendering of UTC instants
    with whole seconds and four-digit years, a [domain.New] that rejects the
    empty id, and the in-memory repository of the tests ([mockRepo]). *)

Module Fixtures.
Import Domain Cache.

Definition quote : Ascii.ascii := Ascii.ascii_of_nat 34.
Definition backslash : Ascii.ascii := Ascii.ascii_of_nat 92.

Fixpoint escape (s : string) : string :=
  match s with
  | EmptyString => EmptyString
  | String c s' =>
      if Ascii.eqb c quote || Ascii.eqb c backslash
      then String backslash (String c (escape s'))
      else String c (escape s')
  end.

Definition json_string (s : string) : string :=
  String quote (escape s ++ String quote EmptyString).

Definition json_field (name value : string) : string :=
  json_string name ++ ":" ++ json_string value.

Definition json_Marshal (e : meetingCacheEntry) : option string :=
  Some ("{" ++ json_field "id" (e_ID e) ++ ","
            ++ json_field "title" (e_Title e) ++ ","
            ++ json_field "datetime" (e_Datetime e) ++ ","
            ++ json_field "source" (e_Source e) ++ "}").

Fixpoint strip_prefix (p s : string) : option string :=
  match p, s with
  | EmptyString, _ => Some s
  | String c p', String d s' => if Ascii.eqb c d then strip_prefix p' s' else None
  | String _ _, EmptyString => None
  end.

(** The characters up to the closing quote, unescaped, and what follows it. *)
Fixpoint read_string (s : string) : option (string * string) :=
  match s with
  | EmptyString => None
  | String c s' =>
      if Ascii.eqb c quote then Some (EmptyString, s')
      else if Ascii.eqb c backslash then
        match s' with
        | String d s'' =>
            match read_string s'' with
            | Some (v, rest) => Some (String d v, rest)
            | None => None
            end
        | EmptyString => None
        end
      else
        match read_string s' with
        | Some (v, rest) => Some (String c v, rest)
        | None => None
        end
  end.

Definition read_field (name s : string) : option (string * string) :=
  s1 ← strip_prefix (json_string name ++ ":" ++ String quote EmptyString) s;
  read_string s1.

Definition json_Unmarshal (data : string) : option meetingCacheEntry :=
  s0 ← strip_prefix "{" data;
  '(id, s1) ← read_field "id" s0;
  s2 ← strip_prefix "," s1;
  '(title, s3) ← read_field "title" s2;
  s4 ← strip_prefix "," s3;
  '(datetime, s5) ← read_field "datetime" s4;
  s6 ← strip_prefix "," s5;
  '(source, s7) ← read_field "source" s6;
  s8 ← strip_prefix "}" s7;
  match s8 with
  | EmptyString => Some (mkCacheEntry id title datetime source)
  | _ => None
  end.

(** Days since the epoch to (year, month, day) and back, proleptic Gregorian. *)
Definition civil_from_days (days : Z) : Z * Z * Z :=
  let z := days + 719468 in
  let era := z / 146097 in
  let doe := z - era * 146097 in
  let yoe := (doe - doe / 1460 + doe / 36524 - doe / 146096) / 365 in
  let doy := doe - (365 * yoe + yoe / 4 - yoe / 100) in
  let mp := (5 * doy + 2) / 153 in
  let d := doy - (153 * mp + 2) / 5 + 1 in
  let m := if mp <? 10 then mp + 3 else mp - 9 in
  let y := yoe + era * 400 in
  (if m <=? 2 then y + 1 else y, m, d).

Definition days_from_civil (y m d : Z) : Z :=
  let y' := if m <=? 2 then y - 1 else y in
  let era := y' / 400 in
  let yoe := y' - era * 400 in
  let mp := (m + 9) mod 12 in
  let doy := (153 * mp + 2) / 5 + d - 1 in
  let doe := yoe * 365 + yoe / 4 - yoe / 100 + doy in
  era * 146097 + doe - 719468.

Fixpoint digits (width : nat) (n : Z) : string :=
  match width with
  | O => EmptyString
  | S w => digits w (n / 10) ++ String (Ascii.ascii_of_nat (48 + Z.to_nat (n mod 10))) EmptyString
  end.

Fixpoint read_digits (width : nat) (acc : Z) (s : string) : option (Z * string) :=
  match width with
  | O => Some (acc, s)
  | S w =>
      match s with
      | String c s' =>
          let n := Z.of_nat (Ascii.nat_of_ascii c) - 48 in
          if (0 <=? n) && (n <=? 9) then read_digits w (acc * 10 + n) s' else None
      | EmptyString => None
      end
  end.

Definition Format_RFC3339 (t : Time) : string :=
  let secs := t / 1000000000 in
  let rem := secs mod 86400 in
  let '(y, m, d) := civil_from_days (secs / 86400) in
  digits 4 y ++ "-" ++ digits 2 m ++ "-" ++ digits 2 d ++ "T"
    ++ digits 2 (rem / 3600) ++ ":" ++ digits 2 (rem mod 3600 / 60) ++ ":"
    ++ digits 2 (rem mod 60) ++ "Z".

Definition Parse_RFC3339 (s : string) : option Time :=
  '(y, s) ← read_digits 4 0 s;
  s ← strip_prefix "-" s;
  '(m, s) ← read_digits 2 0 s;
  s ← strip_prefix "-" s;
  '(d, s) ← read_digits 2 0 s;
  s ← strip_prefix "T" s;
  '(hh, s) ← read_digits 2 0 s;
  s ← strip_prefix ":" s;
  '(mm, s) ← read_digits 2 0 s;
  s ← strip_prefix ":" s;
  '(ss, s) ← read_digits 2 0 s;
  s ← strip_prefix "Z" s;
  match s with
  | EmptyString =>
      Some ((days_from_civil y m d * 86400 + hh * 3600 + mm * 60 + ss) * 1000000000)
  | _ => None
  end.

Definition New_rejects (id : MeetingID) (title : string) (datetime : Time) (source : Source)
    (participants : list Participant) : option error :=
  match id with
  | EmptyString => Some "invalid meeting id"
  | _ => None
  end.

Definition New_events (id : MeetingID) (title : string) (datetime : Time) (source : Source)
    : list DomainEvent :=
  [MeetingCreated id title datetime].

(** [mockRepo]: the meetings it knows and the events its Sync returns. *)
Record mockRepo := mkMock {
  meetings : list (MeetingID * Meeting);
  events : list DomainEvent
}.

Fixpoint lookup_meeting (id : MeetingID) (l : list (MeetingID * Meeting)) : option Meeting :=
  match l with
  | [] => None
  | (k, m) :: l' => if String.eqb k id then Some m else lookup_meeting id l'
  end.

Definition mock_FindByID (id : MeetingID) (m : mockRepo) : Result Meeting * mockRepo :=
  match lookup_meeting id (meetings m) with
  | Some meeting => (Ok meeting, m)
  | None => (Err "meeting not found", m)
  end.

Definition mock_Sync (since : option Time) (m : mockRepo) : Result (list DomainEvent) * mockRepo :=
  (Ok (events m), m).

Definition FindByID := Cache.FindByID mockRepo mock_FindByID New_rejects New_events Format_RFC3339
                         Parse_RFC3339 json_Marshal json_Unmarshal.
Definition Sync := Cache.Sync mockRepo mock_Sync.

(** The codec reads back what it writes. *)
Lemma append_cons (x : Ascii.ascii) (a b : string) : String x a ++ b = String x (a ++ b).
Proof. reflexivity. Qed.

Lemma append_nil (b : string) : EmptyString ++ b = b.
Proof. reflexivity. Qed.

Lemma append_assoc (a b c : string) : (a ++ b) ++ c = a ++ (b ++ c).
Proof.
  induction a as [|x a IH]; [reflexivity|].
  rewrite !append_cons, IH. reflexivity.
Qed.

Lemma strip_prefix_app (p s : string) : strip_prefix p (p ++ s) = Some s.
Proof.
  induction p as [|c p IH]; [destruct s; reflexivity|].
  rewrite append_cons. cbn [strip_prefix]. rewrite Ascii.eqb_refl. exact IH.
Qed.

Lemma read_string_escape (v rest : string) :
  read_string (escape v ++ String quote rest) = Some (v, rest).
Proof.
  induction v as [|c v IH]; [reflexivity|].
  cbn [escape]. destruct (Ascii.eqb c quote || Ascii.eqb c backslash) eqn:E.
  - rewrite !append_cons. cbn [read_string].
    change (Ascii.eqb backslash quote) with false.
    change (Ascii.eqb backslash backslash) with true.
    cbn iota. rewrite IH. reflexivity.
  - apply orb_false_iff in E. destruct E as [E1 E2].
    rewrite append_cons. cbn [read_string]. rewrite E1, E2, IH. reflexivity.
Qed.

Lemma read_field_json_field (name v rest : string) :
  read_field name (json_field name v ++ rest) = Some (v, rest).
Proof.
  unfold read_field.
  replace (json_field name v ++ rest)
    with ((json_string name ++ ":" ++ String quote EmptyString)
          ++ (escape v ++ String quote rest)).
  - rewrite strip_prefix_app. cbn [mbind option_bind]. apply read_string_escape.
  - unfold json_field, json_string.
    repeat first [rewrite append_cons | rewrite append_assoc | rewrite append_nil].
    reflexivity.
Qed.

Lemma strip_char (c : Ascii.ascii) (s : string) :
  strip_prefix (String c EmptyString) (String c EmptyString ++ s) = Some s.
Proof. apply strip_prefix_app. Qed.

Lemma json_roundtrip (e : meetingCacheEntry) :
  json_Marshal e ≫= json_Unmarshal = Some e.
Proof.
  destruct e as [id title datetime source]. unfold json_Marshal, json_Unmarshal.
  cbn [mbind option_bind e_ID e_Title e_Datetime e_Source].
  rewrite strip_char. cbn [mbind option_bind].
  rewrite read_field_json_field. cbn [mbind option_bind].
  rewrite strip_char. cbn [mbind option_bind].
  rewrite read_field_json_field. cbn [mbind option_bind].
  rewrite strip_char. cbn [mbind option_bind].
  rewrite read_field_json_field. cbn [mbind option_bind].
  rewrite strip_char. cbn [mbind option_bind].
  rewrite read_field_json_field. cbn [mbind option_bind].
  reflexivity.
Qed.

(** 2023-11-14T22:13:20Z. *)
Definition t0 : Time := 1700000000000000000.
Definition minute : Duration := 60000000000.

Definition sprint_planning : Meeting :=
  mkMeeting "m-1" "Sprint Planning" t0 "zoom"
            [mkParticipant "Alice" "alice@test.com" "host";
             mkParticipant "Bob" "bob@test.com" "attendee"] [].

Definition repo0 (evs : list DomainEvent) : CachedRepository mockRepo :=
  mkRepo mockRepo (mkMock [("m-1", sprint_planning)] evs) ∅ (15 * minute) [].

End Fixtures.

(** ** The cached repository on the test doubles *)

Module CacheExamples.
Import Domain Cache Fixtures.

(** The repository after a first FindByID("m-1") that missed the cache. *)
Definition warmed (evs : list DomainEvent) : CachedRepository mockRepo :=
  snd (FindByID t0 t0 "m-1" (repo0 evs)).

Definition rebuilt : Meeting := mkMeeting "m-1" "Sprint Planning" t0 "zoom" [] [].

(** With these doubles every meeting that has an id is rebuilt from its
    snapshot. *)
Lemma snapshot_rebuilds_with_id (m : Meeting) :
  ID m <> EmptyString ->
  snapshot_rebuilds New_rejects Format_RFC3339 Parse_RFC3339 json_Marshal json_Unmarshal m.
Proof.
  intros Hid. unfold snapshot_rebuilds.
  pose proof (json_roundtrip (toMeetingCacheEntry Format_RFC3339 m)) as Hrt.
  destruct (json_Marshal (toMeetingCacheEntry Format_RFC3339 m)) as [data|] eqn:E;
    [|discriminate].
  exists data, (toMeetingCacheEntry Format_RFC3339 m).
  split; [reflexivity|]. split; [exact Hrt|].
  unfold New_rejects, toMeetingCacheEntry; simpl.
  destruct (ID m); [contradiction | reflexivity].
Qed.

Lemma second_FindByID_hits_cache_witness :
  exists m2,
    FindByID (t0 + minute) (t0 + minute) "m-1" (warmed []) = (Ok m2, warmed []) /\
    inner_calls _ (warmed []) = (inner_calls _ (repo0 []) ++ [CallFindByID "m-1"])%list /\
    inner_calls _ (snd (FindByID (t0 + minute) (t0 + minute) "m-1" (warmed [])))
    = (inner_calls _ (repo0 []) ++ [CallFindByID "m-1"])%list.
Proof.
  apply (Cache.second_FindByID_hits_cache mockRepo mock_FindByID New_rejects New_events
           Format_RFC3339 Parse_RFC3339 json_Marshal json_Unmarshal
           t0 t0 (t0 + minute) (t0 + minute) "m-1" (repo0 []) (warmed []) sprint_planning).
  - vm_compute; reflexivity.
  - vm_compute; reflexivity.
  - vm_compute; reflexivity.
  - eexists; eexists. split; [reflexivity|]. split; [vm_compute; reflexivity|].
    vm_compute; reflexivity.
Defined.

Lemma cache_hit_drops_participants_and_events_witness :
  from_cache mockRepo New_rejects New_events Parse_RFC3339 json_Unmarshal
    (t0 + minute) "m-1" (warmed []) = Some rebuilt /\
  fst (FindByID t0 t0 "m-1" (repo0 [])) = Ok sprint_planning /\
  FindByID (t0 + minute) (t0 + minute) "m-1" (warmed []) = (Ok rebuilt, warmed []) /\
  Participants rebuilt = [] /\
  DomainEvents rebuilt = [] /\
  rebuilt <> sprint_planning.
Proof.
  assert (Hhit : from_cache mockRepo New_rejects New_events Parse_RFC3339 json_Unmarshal
                   (t0 + minute) "m-1" (warmed []) = Some rebuilt)
    by (vm_compute; reflexivity).
  destruct (Cache.cache_hit_drops_participants_and_events mockRepo mock_FindByID
              New_rejects New_events Format_RFC3339 Parse_RFC3339 json_Marshal json_Unmarshal
              (t0 + minute) (t0 + minute) "m-1" (warmed []) rebuilt Hhit)
    as (HF & Hp & He & _ & Hne & _).
  split; [exact Hhit|]. split; [vm_compute; reflexivity|].
  split; [exact HF|]. split; [exact Hp|]. split; [exact He|].
  apply Hne. left. discriminate.
Defined.

(** C1 at an event that is not a MeetingCreated. With "meeting:m-1" cached, a
    Sync that succeeds and returns a TranscriptUpdated event for m-1 leaves
    the entry in place, and the next FindByID("m-1") is answered from the
    cache: the inner repository has seen one FindByID and one Sync.  With a
    MeetingCreated event for m-1 the entry is deleted and the next
    FindByID("m-1") reaches the inner repository again. *)
Theorem Sync_keeps_entry_on_TranscriptUpdated :
  fst (Sync None (warmed [TranscriptUpdated "m-1" 42])) = Ok [TranscriptUpdated "m-1" 42] /\
  EventMeetingID (TranscriptUpdated "m-1" 42) = "m-1" /\
  is_Some (db _ (warmed [TranscriptUpdated "m-1" 42]) !! "meeting:m-1") /\
  db _ (snd (Sync None (warmed [TranscriptUpdated "m-1" 42]))) !! "meeting:m-1"
  = db _ (warmed [TranscriptUpdated "m-1" 42]) !! "meeting:m-1" /\
  FindByID (t0 + minute) (t0 + minute) "m-1"
    (snd (Sync None (warmed [TranscriptUpdated "m-1" 42])))
  = (Ok rebuilt, snd (Sync None (warmed [TranscriptUpdated "m-1" 42]))) /\
  inner_calls _ (snd (FindByID (t0 + minute) (t0 + minute) "m-1"
                        (snd (Sync None (warmed [TranscriptUpdated "m-1" 42])))))
  = [CallFindByID "m-1"; CallSync None] /\
  db _ (snd (Sync None (warmed [MeetingCreated "m-1" "Sprint Planning" t0]))) !! "meeting:m-1"
  = None /\
  inner_calls _ (snd (FindByID (t0 + minute) (t0 + minute) "m-1"
                        (snd (Sync None (warmed [MeetingCreated "m-1" "Sprint Planning" t0])))))
  = [CallFindByID "m-1"; CallSync None; CallFindByID "m-1"].
Proof.
  split; [vm_compute; reflexivity|].
  split; [reflexivity|].
  split; [vm_compute; eexists; reflexivity|].
  repeat split; vm_compute; reflexivity.
Qed.

End CacheExamples.

(** ** Circuit breaker, rate limiter, retry executor and resilient repository

    Package resilience is known here through its tests and its caller only. *)

Module Resilience.

Inductive State := Closed | Open | HalfOpen.

(** Modelled from the spec: BreakerState (section 3); the breaker of package
    resilience is not among the sources. *)
Record BreakerState := mkBreaker {
  state : State;
  consecutiveFailures : nat;
  consecutiveSuccesses : nat;
  lastTransitionAt : Time
}.

(** Modelled from the spec: the configuration surface (section 6) and the
    retry policy (section 3); [resilience.Config] is not among the sources,
    its field names are those the composition root assigns. *)
Record Config := mkConfig {
  Timeout : Duration;
  MaxRetries : nat;
  RetryDelay : Duration;
  RetryMaxDelay : Duration;
  BackoffMultiplier : Z;
  FailureThreshold : nat;
  SuccessThreshold : nat;
  HalfOpenTimeout : Duration;
  RateLimit : Z;
  RateBurst : Z;
  RateInterval : Duration
}.

(** Modelled from the spec: [Allow] (section 4.1).  Open before the timeout
    refuses; Open once halfOpenTimeout has elapsed since lastTransitionAt
    moves to HalfOpen and lets the call through as a trial. *)
Definition Allow (c : Config) (now : Time) (b : BreakerState) : bool * BreakerState :=
  match state b with
  | Closed => (true, b)
  | HalfOpen => (true, b)
  | Open =>
      if HalfOpenTimeout c <=? now - lastTransitionAt b
      then (true, mkBreaker HalfOpen (consecutiveFailures b) 0 now)
      else (false, b)
  end.

(** Modelled from the spec: [OnSuccess] (section 4.1).  Closed: reset the
    failure count.  HalfOpen: count the success and close at
    successThreshold.  Open: no transition is defined. *)
Definition OnSuccess (c : Config) (now : Time) (b : BreakerState) : BreakerState :=
  match state b with
  | Closed => mkBreaker Closed 0 (consecutiveSuccesses b) (lastTransitionAt b)
  | HalfOpen =>
      if (SuccessThreshold c <=? S (consecutiveSuccesses b))%nat
      then mkBreaker Closed 0 0 now
      else mkBreaker HalfOpen (consecutiveFailures b) (S (consecutiveSuccesses b))
                     (lastTransitionAt b)
  | Open => b
  end.

(** Modelled from the spec: [OnFailure] (section 4.1).  Closed: count the
    failure and open when the count reaches failureThreshold, resetting the
    success count.  HalfOpen: open at once.  Open: no transition is defined. *)
Definition OnFailure (c : Config) (now : Time) (b : BreakerState) : BreakerState :=
  match state b with
  | Closed =>
      if (FailureThreshold c <=? S (consecutiveFailures b))%nat
      then mkBreaker Open (S (consecutiveFailures b)) 0 now
      else mkBreaker Closed (S (consecutiveFailures b)) (consecutiveSuccesses b)
                     (lastTransitionAt b)
  | HalfOpen => mkBreaker Open (S (consecutiveFailures b)) 0 now
  | Open => b
  end.

(** What a breaker observes, in order. *)
Inductive BreakerEvent :=
| EvAllow (now : Time)
| EvSuccess (now : Time)
| EvFailure (now : Time).

Definition observe1 (c : Config) (b : BreakerState) (e : BreakerEvent) : BreakerState :=
  match e with
  | EvAllow now => snd (Allow c now b)
  | EvSuccess now => OnSuccess c now b
  | EvFailure now => OnFailure c now b
  end.

Definition observe (c : Config) (evs : list BreakerEvent) (b : BreakerState) : BreakerState :=
  fold_left (observe1 c) evs b.

Definition is_failure (e : BreakerEvent) : bool :=
  match e with EvFailure _ => true | _ => false end.

Definition is_success (e : BreakerEvent) : bool :=
  match e with EvSuccess _ => true | _ => false end.

Definition count_failures (evs : list BreakerEvent) : nat :=
  length (List.filter is_failure evs).

(** A run of consecutive failures: no success among the events, and the last
    event is a failure. *)
Definition failure_run (evs : list BreakerEvent) : bool :=
  forallb (fun e => negb (is_success e)) evs &&
  match rev evs with
  | e :: _ => is_failure e
  | [] => false
  end.

(** Modelled from the spec: RateLimiterState (section 3).  Tokens are counted
    in units of 1/RateInterval of a token, which keeps the refill
    elapsed * rate / interval exact. *)
Record RateLimiterState := mkLimiter {
  tokens : Z;
  lastRefillAt : Time
}.

Inductive Admission :=
| Granted (at_time : Time)
| Rejected
| Blocked.

Definition refill (c : Config) (now : Time) (l : RateLimiterState) : Z :=
  Z.min (RateBurst c * RateInterval c)
        (tokens l + (now - lastRefillAt l) * RateLimit c).

(** Modelled from the spec: [Acquire] (section 4.3).  Refill; with a whole
    token, consume it and return at once; otherwise wait for one, up to the
    deadline of the context: [Rejected] is the RateLimitExceeded error,
    [Blocked] a wait that never ends (no deadline and no token to come). *)
Definition Acquire (c : Config) (deadline : option Time) (now : Time) (l : RateLimiterState)
    : Admission * RateLimiterState :=
  let t := refill c now l in
  if RateInterval c <=? t then (Granted now, mkLimiter (t - RateInterval c) now)
  else if (RateLimit c <=? 0) || (RateBurst c <? 1) then
    (match deadline with Some _ => Rejected | None => Blocked end, mkLimiter t now)
  else
    let wait := (RateInterval c - t + RateLimit c - 1) / RateLimit c in
    let granted := (Granted (now + wait),
                     mkLimiter (Z.min (RateBurst c * RateInterval c) (t + wait * RateLimit c)
                                - RateInterval c) (now + wait)) in
    match deadline with
    | Some d => if d <? now + wait then (Rejected, mkLimiter t now) else granted
    | None => granted
    end.

(** One attempt on the inner repository: how it ends and how long it takes. *)
Inductive Outcome := Succeeded | NotFound | PermanentFailure | TransientFailure.

Inductive CallError :=
| CircuitOpen
| RateLimitExceeded
| RetryExhausted
| Cancelled
| ErrNotFound
| ErrPermanent.

Inductive CallResult :=
| Done
| Failed (e : CallError)
| Hangs.

(** [inner_calls] counts the invocations of the inner repository. *)
Record ResilientRepository := mkResilient {
  cfg : Config;
  breaker : BreakerState;
  limiter : RateLimiterState;
  inner_calls : nat
}.

Definition NewResilientRepository (c : Config) (now : Time) : ResilientRepository :=
  mkResilient c (mkBreaker Closed 0 0 now) (mkLimiter (RateBurst c * RateInterval c) now) 0.

Definition with_breaker (r : ResilientRepository) (b : BreakerState) : ResilientRepository :=
  mkResilient (cfg r) b (limiter r) (inner_calls r).

(** What one call leaves behind: when its breaker check took place, if it
    got that far, and its result. *)
Record CallTrace := mkTrace {
  checked_at : option Time;
  result : CallResult
}.

Section Inner.

(** The inner repository: outcome and duration of its n-th invocation. *)
Variable inner : nat -> Outcome * Duration.

(** Modelled from the spec: the backoff before attempt number [attempt]
    (section 4.2). *)
Definition backoff (c : Config) (attempt : nat) : Duration :=
  Z.min (RetryDelay c * BackoffMultiplier c ^ (Z.of_nat attempt - 1)) (RetryMaxDelay c).

(** The context is done: its deadline (or cancellation) is behind [now]. *)
Definition ctx_done (deadline : option Time) (now : Time) : bool :=
  match deadline with
  | Some dl => dl <? now
  | None => false
  end.

(** Modelled from the spec: the Retry Executor (section 4.2) around attempts
    bounded by Timeout (section 4.4, step 3).  [remaining] attempts are left,
    the next one is number [attempt]; returns the final result, the time and
    the number of inner invocations so far.  A context that is done ends the
    operation with the cancellation error, before an attempt as during the
    backoff. *)
Fixpoint Execute (c : Config) (deadline : option Time) (remaining attempt : nat)
    (now : Time) (calls : nat) : CallResult * Time * nat :=
  match remaining with
  | O => (Failed RetryExhausted, now, calls)
  | S k =>
      if ctx_done deadline now then (Failed Cancelled, now, calls)
      else
        let (o, d) := inner calls in
        let o := if Timeout c <? d then TransientFailure else o in
        let now1 := now + Z.min (Z.max d 0) (Timeout c) in
        match o with
        | Succeeded => (Done, now1, S calls)
        | NotFound => (Failed ErrNotFound, now1, S calls)
        | PermanentFailure => (Failed ErrPermanent, now1, S calls)
        | TransientFailure =>
            match k with
            | O => (Failed RetryExhausted, now1, S calls)
            | S _ =>
                let now2 := now1 + Z.max (backoff c (S attempt)) 0 in
                if ctx_done deadline now2 then (Failed Cancelled, now2, S calls)
                else Execute c deadline k (S attempt) now2 (S calls)
            end
        end
  end.

(** Modelled from the spec: one call through the Resilient Repository
    (section 4.4): rate limiter, breaker check, timeout-bounded retries,
    report of the final outcome to the breaker (section 7: a not-found is not
    a failure, a cancellation is not counted). *)
Definition call (now : Time) (deadline : option Time) (r : ResilientRepository)
    : CallTrace * ResilientRepository :=
  match Acquire (cfg r) deadline now (limiter r) with
  | (Rejected, l) =>
      (mkTrace None (Failed RateLimitExceeded),
       mkResilient (cfg r) (breaker r) l (inner_calls r))
  | (Blocked, l) =>
      (mkTrace None Hangs, mkResilient (cfg r) (breaker r) l (inner_calls r))
  | (Granted t, l) =>
      let (ok, b) := Allow (cfg r) t (breaker r) in
      if negb ok
      then (mkTrace (Some t) (Failed CircuitOpen), mkResilient (cfg r) b l (inner_calls r))
      else
        let '(res, t', n) := Execute (cfg r) deadline (MaxRetries (cfg r)) 1 t (inner_calls r) in
        let b' := match res with
                  | Done | Failed ErrNotFound => OnSuccess (cfg r) t' b
                  | Failed Cancelled | Hangs => b
                  | Failed _ => OnFailure (cfg r) t' b
                  end in
        (mkTrace (Some t) res, mkResilient (cfg r) b' l n)
  end.

(** Calls made one after the other, each with its time and deadline. *)
Fixpoint calls (cs : list (Time * option Time)) (r : ResilientRepository)
    : list CallTrace * ResilientRepository :=
  match cs with
  | [] => ([], r)
  | (now, deadline) :: cs' =>
      let (tr, r1) := call now deadline r in
      let (trs, r2) := calls cs' r1 in
      (tr :: trs, r2)
  end.

End Inner.

End Resilience.

(** ** Properties of the breaker and of the resilient repository *)

Module ResilienceSpec.
Import Resilience.

Definition after_failures (evs : list BreakerEvent) (r : ResilientRepository)
    : ResilientRepository :=
  with_breaker r (observe (cfg r) evs (breaker r)).

(** The breaker check of the call, if any, was made before halfOpenTimeout
    had elapsed since the last transition of breaker [b]. *)
Definition checked_before_timeout (c : Config) (b : BreakerState) (tr : CallTrace) : Prop :=
  forall t, checked_at tr = Some t -> t - lastTransitionAt b < HalfOpenTimeout c.

(** The call got no further than the rate limiter or the breaker. *)
Definition failed_fast (tr : CallTrace) : Prop :=
  match checked_at tr with
  | Some _ => result tr = Failed CircuitOpen
  | None => result tr = Failed RateLimitExceeded \/ result tr = Hangs
  end.

Lemma observe_snoc (c : Config) (evs : list BreakerEvent) (e : BreakerEvent) (b : BreakerState) :
  observe c (evs ++ [e]) b = observe1 c (observe c evs b) e.
Proof. unfold observe. rewrite fold_left_app. reflexivity. Qed.

Lemma count_failures_snoc (evs : list BreakerEvent) (e : BreakerEvent) :
  count_failures (evs ++ [e])
  = (count_failures evs + if is_failure e then 1 else 0)%nat.
Proof.
  unfold count_failures. rewrite List.filter_app, List.length_app. simpl.
  destruct (is_failure e); reflexivity.
Qed.

(** While no success is observed, a breaker that is still Closed has counted
    every failure of the run. *)
Lemma closed_counts_failures (c : Config) (evs : list BreakerEvent) (b : BreakerState) :
  forallb (fun e => negb (is_success e)) evs = true ->
  state (observe c evs b) = Closed ->
  (count_failures evs <= consecutiveFailures (observe c evs b))%nat.
Proof.
  induction evs as [|e evs IH] using rev_ind; intros Hns Hc.
  - unfold count_failures; simpl. lia.
  - rewrite forallb_app in Hns. apply andb_true_iff in Hns. destruct Hns as [Hns He].
    rewrite observe_snoc in *. rewrite count_failures_snoc.
    specialize (IH Hns).
    destruct e as [now|now|now]; simpl in *; [| discriminate |].
    + unfold Allow in *. destruct (state (observe c evs b)) eqn:Es; simpl in *.
      * specialize (IH eq_refl). lia.
      * destruct (HalfOpenTimeout c <=? now - lastTransitionAt (observe c evs b));
          simpl in Hc; [discriminate | congruence].
      * congruence.
    + unfold OnFailure in *. destruct (state (observe c evs b)) eqn:Es; simpl in *.
      * specialize (IH eq_refl).
        destruct (FailureThreshold c <=? S (consecutiveFailures (observe c evs b)))%nat;
          simpl in *; [discriminate | lia].
      * congruence.
      * discriminate.
Qed.

Lemma failure_run_opens (c : Config) (evs : list BreakerEvent) (b : BreakerState) :
  failure_run evs = true ->
  (FailureThreshold c <= count_failures evs)%nat ->
  state (observe c evs b) = Open.
Proof.
  unfold failure_run. intros Hrun Hn.
  apply andb_true_iff in Hrun. destruct Hrun as [Hns Hlast].
  destruct evs as [|e evs] using rev_ind; [simpl in Hlast; discriminate|].
  clear IHevs. rewrite rev_app_distr in Hlast. simpl in Hlast.
  destruct e as [now|now|now]; try discriminate.
  assert (Hns' := Hns). rewrite forallb_app in Hns'.
  apply andb_true_iff in Hns'. destruct Hns' as [Hns' _].
  pose proof (closed_counts_failures c evs b Hns') as Hcount.
  rewrite count_failures_snoc in Hn. simpl in Hn.
  rewrite observe_snoc. simpl. unfold OnFailure.
  destruct (state (observe c evs b)) eqn:Es; simpl; [|assumption|reflexivity].
  specialize (Hcount eq_refl).
  destruct (Nat.leb_spec (FailureThreshold c) (S (consecutiveFailures (observe c evs b))));
    simpl; [reflexivity | lia].
Qed.

Section Inner.

Variable inner : nat -> Outcome * Duration.

Lemma call_cfg (now : Time) (deadline : option Time) (r : ResilientRepository) :
  cfg (snd (call inner now deadline r)) = cfg r.
Proof.
  unfold call. destruct (Acquire (cfg r) deadline now (limiter r)) as [[t| |] l]; simpl;
    try reflexivity.
  destruct (Allow (cfg r) t (breaker r)) as [[|] b]; simpl; [|reflexivity].
  destruct (Execute inner (cfg r) deadline (MaxRetries (cfg r)) 1 t (inner_calls r))
    as [[res t'] n]; reflexivity.
Qed.

(** One call on an Open breaker whose check falls before the timeout. *)
Lemma call_on_open_breaker (now : Time) (deadline : option Time) (r : ResilientRepository) :
  state (breaker r) = Open ->
  checked_before_timeout (cfg r) (breaker r) (fst (call inner now deadline r)) ->
  failed_fast (fst (call inner now deadline r)) /\
  inner_calls (snd (call inner now deadline r)) = inner_calls r /\
  breaker (snd (call inner now deadline r)) = breaker r.
Proof.
  unfold checked_before_timeout, failed_fast, call. intros Hopen Hbefore.
  destruct (Acquire (cfg r) deadline now (limiter r)) as [[t| |] l]; simpl in *.
  - unfold Allow in *. rewrite Hopen in *.
    destruct (Z.leb_spec (HalfOpenTimeout (cfg r)) (t - lastTransitionAt (breaker r)))
      as [Hge|Hlt]; simpl in *.
    + exfalso.
      destruct (Execute inner (cfg r) deadline (MaxRetries (cfg r)) 1 t (inner_calls r))
        as [[res t'] n]; simpl in Hbefore.
      specialize (Hbefore t eq_refl). lia.
    + repeat split; reflexivity.
  - repeat split; try reflexivity. left; reflexivity.
  - repeat split; try reflexivity. right; reflexivity.
Qed.

Lemma calls_on_open_breaker (cs : list (Time * option Time)) (r : ResilientRepository) :
  state (breaker r) = Open ->
  Forall (checked_before_timeout (cfg r) (breaker r)) (fst (calls inner cs r)) ->
  Forall failed_fast (fst (calls inner cs r)) /\
  inner_calls (snd (calls inner cs r)) = inner_calls r /\
  breaker (snd (calls inner cs r)) = breaker r.
Proof.
  revert r. induction cs as [|[now deadline] cs IH]; intros r Hopen Hall; simpl in *.
  - repeat split; constructor.
  - pose proof (call_on_open_breaker now deadline r Hopen) as Hcall.
    pose proof (call_cfg now deadline r) as Hcfg.
    destruct (call inner now deadline r) as [tr r1]; simpl in *.
    specialize (IH r1).
    destruct (calls inner cs r1) as [trs r2]; simpl in *.
    apply Forall_cons_1 in Hall. destruct Hall as [Htr Htrs].
    destruct (Hcall Htr) as (Hff & Hn & Hb).
    rewrite Hcfg, Hb in IH.
    destruct (IH Hopen Htrs) as (Hffs & Hns & Hbs).
    split; [constructor; assumption|]. split; congruence.
Qed.

(** C3 (as the model has it). After a run of consecutive failures, at least
    failureThreshold of them, the breaker is Open; of the calls that follow,
    as long as each breaker check is made before halfOpenTimeout has elapsed
    since that transition, none invokes the inner repository and none moves
    the breaker: a call that reaches the breaker fails with the circuit-open
    error, a call the rate limiter holds back first fails with
    rate-limit-exceeded (or waits for ever). *)
Theorem open_breaker_fails_fast (evs : list BreakerEvent) (r : ResilientRepository)
    (cs : list (Time * option Time)) :
  failure_run evs = true ->
  (FailureThreshold (cfg r) <= count_failures evs)%nat ->
  Forall (checked_before_timeout (cfg r) (breaker (after_failures evs r)))
         (fst (calls inner cs (after_failures evs r))) ->
  state (breaker (after_failures evs r)) = Open /\
  Forall failed_fast (fst (calls inner cs (after_failures evs r))) /\
  inner_calls (snd (calls inner cs (after_failures evs r))) = inner_calls r /\
  breaker (snd (calls inner cs (after_failures evs r))) = breaker (after_failures evs r).
Proof.
  intros Hrun Hn Hall.
  assert (Hopen : state (breaker (after_failures evs r)) = Open).
  { apply failure_run_opens; assumption. }
  split; [exact Hopen|].
  exact (calls_on_open_breaker cs (after_failures evs r) Hopen Hall).
Qed.

End Inner.

(** A configuration: 5 s timeout, one attempt, breaker opening at the first
    failure for 30 s, one token per second with a burst of one. *)
Definition second : Duration := 1000000000.

Definition strict : Config :=
  mkConfig (5 * second) 1 (second / 10) second 2 1 1 (30 * second) 1 1 second.

Definition failing (n : nat) : Outcome * Duration := (PermanentFailure, 1000).

(** The repository after one call at time 0 that failed on the inner
    repository: the token is spent and the breaker opened at time 1000. *)
Definition tripped : ResilientRepository :=
  snd (call failing 0 None (NewResilientRepository strict 0)).

Lemma open_breaker_fails_fast_witness :
  state (breaker (after_failures [EvFailure 10; EvAllow 11; EvFailure 12]
                    (NewResilientRepository strict 0))) = Open /\
  Forall failed_fast
    (fst (calls failing [(13, None); (14, Some 20)]
            (after_failures [EvFailure 10; EvAllow 11; EvFailure 12]
               (NewResilientRepository strict 0)))) /\
  inner_calls
    (snd (calls failing [(13, None); (14, Some 20)]
            (after_failures [EvFailure 10; EvAllow 11; EvFailure 12]
               (NewResilientRepository strict 0)))) = 0%nat.
Proof.
  destruct (open_breaker_fails_fast failing [EvFailure 10; EvAllow 11; EvFailure 12]
              (NewResilientRepository strict 0) [(13, None); (14, Some 20)])
    as (Hopen & Hff & Hn & _).
  - reflexivity.
  - vm_compute. lia.
  - repeat constructor; intros t [= <-]; vm_compute; reflexivity.
  - split; [exact Hopen|]. split; [exact Hff | exact Hn].
Defined.

(** The same, with one token per minute: the wait for a token is longer
    than the 30 s of halfOpenTimeout. *)
Definition sparse : Config :=
  mkConfig (5 * second) 1 (second / 10) second 2 1 1 (30 * second) 1 1 (60 * second).

Definition tripped_sparse : ResilientRepository :=
  snd (call failing 0 None (NewResilientRepository sparse 0)).

(** C3 as stated fails on the rate limiter, which is consulted before the
    breaker.  With the breaker Open since time 1000 and the bucket empty, a
    call made at time 2000 with deadline 3000, long before the 30 s of
    halfOpenTimeout, fails with rate-limit-exceeded, not with circuit-open
    (the inner repository is not invoked).  And with one token per minute, a
    call made at time 2000 without deadline waits for its token until the
    timeout has elapsed, passes the breaker as the trial and invokes the
    inner repository. *)
Lemma rate_limited_before_circuit_open :
  (state (breaker tripped) = Open /\
   lastTransitionAt (breaker tripped) = 1000 /\
   2000 - lastTransitionAt (breaker tripped) < HalfOpenTimeout (cfg tripped) /\
   fst (call failing 2000 (Some 3000) tripped) = mkTrace None (Failed RateLimitExceeded) /\
   result (fst (call failing 2000 (Some 3000) tripped)) <> Failed CircuitOpen /\
   inner_calls (snd (call failing 2000 (Some 3000) tripped)) = inner_calls tripped) /\
  (state (breaker tripped_sparse) = Open /\
   lastTransitionAt (breaker tripped_sparse) = 1000 /\
   2000 - lastTransitionAt (breaker tripped_sparse) < HalfOpenTimeout (cfg tripped_sparse) /\
   fst (call failing 2000 None tripped_sparse)
   = mkTrace (Some (60 * second)) (Failed ErrPermanent) /\
   inner_calls (snd (call failing 2000 None tripped_sparse))
   = S (inner_calls tripped_sparse)).
Proof.
  split.
  - split; [reflexivity|]. split; [reflexivity|]. split; [reflexivity|].
    split; [reflexivity|]. split; [discriminate | reflexivity].
  - repeat split; reflexivity.
Qed.

(** The retry property of the spec: an operation that fails twice and then
    succeeds, under three attempts, succeeds after three invocations. *)
Definition flaky (n : nat) : Outcome * Duration :=
  match n with
  | O | S O => (TransientFailure, 1000)
  | _ => (Succeeded, 1000)
  end.

Example third_attempt_succeeds :
  let c := mkConfig (5 * second) 3 (second / 10) second 2 5 2 (30 * second) 10 20 second in
  fst (call flaky 0 None (NewResilientRepository c 0)) = mkTrace (Some 0) Done /\
  inner_calls (snd (call flaky 0 None (NewResilientRepository c 0))) = 3%nat /\
  state (breaker (snd (call flaky 0 None (NewResilientRepository c 0)))) = Closed.
Proof. repeat split; reflexivity. Qed.

End ResilienceSpec.

(** ** Outbox dispatcher

    The dispatcher of package outbox ([outbox.NewDispatcher]) is known here
    through its caller, the composition root, only; the store it writes to is
    the [SQLiteStore] above. *)

Module OutboxDispatcher.
Import Domain Outbox.

(** What a Dispatch does on its store and on the inner dispatcher, in order. *)
Inductive Step :=
| Appended (id : string) (ok : bool)
| Forwarded (e : DomainEvent) (ok : bool)
| MarkedSynced (id : string)
| MarkedFailed (id : string).

Section Dispatcher.

(** The inner [domain.EventDispatcher]. *)
Variable InnerDispatcher : Type.
Variable inner_Dispatch : list DomainEvent -> InnerDispatcher -> option error * InnerDispatcher.

(** The serialization of an event into its outbox entry. *)
Variable toEntry : DomainEvent -> Entry.

Record Dispatcher := mkDispatcher {
  store : SQLiteStore;
  inner : InnerDispatcher
}.

Record Dispatched := mkDispatched {
  err : option error;
  after : Dispatcher;
  steps : list Step
}.

(** Modelled from the spec: [Dispatch] of the Outbox Dispatcher (section
    4.6).  For each event: Append its entry, and return the error if that
    fails; then forward the event to the inner dispatcher; MarkSynced on
    success, MarkFailed on failure, the forwarding error being dropped. *)
Fixpoint Dispatch (now : Time) (events : list DomainEvent) (d : Dispatcher) : Dispatched :=
  match events with
  | [] => mkDispatched None d []
  | e :: rest =>
      let entry := toEntry e in
      match Append entry (store d) with
      | (Some failure, s) =>
          mkDispatched (Some failure) (mkDispatcher s (inner d)) [Appended (ID entry) false]
      | (None, s) =>
          let (forward_err, i) := inner_Dispatch [e] (inner d) in
          match forward_err with
          | None =>
              let r := Dispatch now rest
                         (mkDispatcher (snd (MarkSynced now (ID entry) s)) i) in
              mkDispatched (err r) (after r)
                (Appended (ID entry) true :: Forwarded e true :: MarkedSynced (ID entry)
                   :: steps r)
          | Some _ =>
              let r := Dispatch now rest
                         (mkDispatcher (snd (MarkFailed (ID entry) s)) i) in
              mkDispatched (err r) (after r)
                (Appended (ID entry) true :: Forwarded e false :: MarkedFailed (ID entry)
                   :: steps r)
          end
      end
  end.

End Dispatcher.

End OutboxDispatcher.

(** ** Properties of the outbox dispatcher *)

Module OutboxDispatcherSpec.
Import Domain Outbox OutboxDispatcher.

(** The entry [id] is stored, failed once, and no row of that id is in any
    other condition. *)
Definition settled_failed (id : string) (s : SQLiteStore) : Prop :=
  has_id id (outbox_entries s) = true /\
  Forall (fun r => r_id r = id -> r_status r = "failed" /\ r_attempts r = 1)
         (outbox_entries s).

Lemma has_id_false (id : string) (rows : list Row) :
  has_id id rows = false -> Forall (fun r => r_id r <> id) rows.
Proof.
  unfold has_id. induction rows as [|x t IH]; simpl; intros H; constructor.
  - apply orb_false_iff in H. destruct H as [H _]. apply String.eqb_neq, H.
  - apply IH. apply orb_false_iff in H. apply H.
Qed.

Lemma has_id_app (id : string) (l l' : list Row) :
  has_id id (l ++ l') = has_id id l || has_id id l'.
Proof. unfold has_id. apply existsb_app. Qed.

Lemma has_id_update (id id' : string) (f : Row -> Row) (rows : list Row) :
  (forall r, r_id (f r) = r_id r) ->
  has_id id (update_where id' f rows) = has_id id rows.
Proof.
  intros Hf. unfold has_id, update_where.
  induction rows as [|x t IH]; simpl; [reflexivity|].
  rewrite IH. destruct (String.eqb (r_id x) id'); [rewrite Hf|]; reflexivity.
Qed.

Lemma Append_ok_fresh (entry : Entry) (s : SQLiteStore) :
  fst (Append entry s) = None -> has_id (ID entry) (outbox_entries s) = false.
Proof.
  unfold Append. destruct (has_id (ID entry) (outbox_entries s)); [discriminate | reflexivity].
Qed.

Lemma settled_after_MarkFailed (entry : Entry) (s : SQLiteStore) :
  fst (Append entry s) = None ->
  settled_failed (ID entry) (snd (MarkFailed (ID entry) (snd (Append entry s)))).
Proof.
  intros Hok. pose proof (Append_ok_fresh entry s Hok) as Hfresh.
  unfold Append. rewrite Hfresh. unfold settled_failed, MarkFailed; simpl. split.
  - rewrite has_id_update by reflexivity. rewrite has_id_app.
    unfold has_id at 2. cbn [existsb r_id].
    rewrite String.eqb_refl. apply orb_true_iff. right. reflexivity.
  - unfold update_where. apply Forall_map. apply Forall_app. split.
    + eapply List.Forall_impl; [|exact (has_id_false _ _ Hfresh)].
      intros r Hr. simpl. destruct (String.eqb_spec (r_id r) (ID entry)); [contradiction|].
      intros E. contradiction.
    + constructor; [|constructor]. cbn [r_id]. rewrite String.eqb_refl.
      intros _. split; reflexivity.
Qed.

Lemma settled_update_other (id id' : string) (f : Row -> Row) (s : SQLiteStore) :
  (forall r, r_id (f r) = r_id r) ->
  id' <> id ->
  settled_failed id s ->
  settled_failed id (mkStore (update_where id' f (outbox_entries s))).
Proof.
  intros Hf Hne [Hhas Hall]. unfold settled_failed; simpl. split.
  - rewrite has_id_update by exact Hf. exact Hhas.
  - unfold update_where. apply Forall_map.
    eapply List.Forall_impl; [|exact Hall].
    intros r Hr. simpl. destruct (String.eqb_spec (r_id r) id') as [E|E].
    + rewrite Hf. intros E'. congruence.
    + exact Hr.
Qed.

Lemma settled_Append (id : string) (entry : Entry) (s : SQLiteStore) :
  settled_failed id s -> settled_failed id (snd (Append entry s)).
Proof.
  intros [Hhas Hall]. unfold Append.
  destruct (has_id (ID entry) (outbox_entries s)) eqn:E; simpl; [split; assumption|].
  unfold settled_failed; simpl. split.
  - rewrite has_id_app, Hhas. reflexivity.
  - apply Forall_app. split; [exact Hall|].
    constructor; [|constructor]. simpl. intros Heq. subst id. congruence.
Qed.

Lemma settled_status (id : string) (s : SQLiteStore) :
  settled_failed id s ->
  status_of id s = Some "failed" /\
  attempts_of id s = Some 1 /\
  forall entries, ListPending s = Ok entries -> Forall (fun x => ID x <> id) entries.
Proof.
  intros [Hhas Hall]. rewrite List.Forall_forall in Hall.
  assert (Hfind : exists r, find_row id s = Some r).
  { unfold find_row, has_id in *.
    induction (outbox_entries s) as [|x t IH]; simpl in *; [discriminate|].
    destruct (String.eqb (r_id x) id); [eexists; reflexivity|].
    apply IH; [exact Hhas | intros r Hr; apply Hall; right; exact Hr]. }
  destruct Hfind as [r Hr]. unfold status_of, attempts_of. rewrite Hr. simpl.
  apply OutboxSpec.find_some_key in Hr. destruct Hr as [Hid Hin].
  destruct (Hall r Hin Hid) as [-> ->].
  split; [reflexivity|]. split; [reflexivity|].
  intros entries [= <-]. apply List.Forall_forall. intros x Hx Hxid.
  apply in_map_iff in Hx. destruct Hx as [r' [<- Hr']].
  apply (Permutation_in _ (OutboxSpec.order_by_created_perm _)) in Hr'.
  apply filter_In in Hr'. destruct Hr' as [Hr' Hp].
  destruct (Hall r' Hr' Hxid) as [Hst _].
  unfold is_pending in Hp. rewrite Hst in Hp. discriminate.
Qed.

Section Dispatcher.

Variable InnerDispatcher : Type.
Variable inner_Dispatch : list DomainEvent -> InnerDispatcher -> option error * InnerDispatcher.
Variable toEntry : DomainEvent -> Entry.

Abbreviation Dispatch := (OutboxDispatcher.Dispatch InnerDispatcher inner_Dispatch toEntry).

Lemma Dispatch_keeps_settled (now : Time) (events : list DomainEvent) (id : string)
    (d : Dispatcher InnerDispatcher) :
  settled_failed id (store _ d) ->
  settled_failed id (store _ (after _ (Dispatch now events d))).
Proof.
  revert d. induction events as [|e rest IH]; intros d Hs; simpl; [exact Hs|].
  pose proof (settled_Append id (toEntry e) (store _ d) Hs) as Hs1.
  pose proof (Append_ok_fresh (toEntry e) (store _ d)) as Hfresh.
  destruct (Append (toEntry e) (store _ d)) as [[failure|] s]; simpl in *; [exact Hs1|].
  assert (Hne : ID (toEntry e) <> id).
  { intros E. destruct Hs as [Hhas _]. rewrite E in Hfresh.
    rewrite (Hfresh eq_refl) in Hhas. discriminate. }
  destruct (inner_Dispatch [e] (inner _ d)) as [[forward_err|] i]; simpl; apply IH; simpl;
    apply settled_update_other; auto.
Qed.

Lemma Dispatch_err_iff (now : Time) (events : list DomainEvent) (d : Dispatcher InnerDispatcher) :
  is_Some (err _ (Dispatch now events d)) <->
  exists id, In (Appended id false) (steps _ (Dispatch now events d)).
Proof.
  revert d. induction events as [|e rest IH]; intros d; simpl.
  - split; [intros [x Hx]; discriminate | intros [id []]].
  - destruct (Append (toEntry e) (store _ d)) as [[failure|] s]; simpl.
    + split; [intros _; eexists; left; reflexivity | intros _; eexists; reflexivity].
    + destruct (inner_Dispatch [e] (inner _ d)) as [[forward_err|] i]; simpl;
        rewrite IH; split; intros [id H]; exists id.
      * right; right; right; exact H.
      * destruct H as [H|[H|[H|H]]]; [discriminate.. | exact H].
      * right; right; right; exact H.
      * destruct H as [H|[H|[H|H]]]; [discriminate.. | exact H].
Qed.

Lemma Dispatch_forward_failed (now : Time) (events : list DomainEvent)
    (d : Dispatcher InnerDispatcher) (e : DomainEvent) :
  In (Forwarded e false) (steps _ (Dispatch now events d)) ->
  In (MarkedFailed (ID (toEntry e))) (steps _ (Dispatch now events d)) /\
  settled_failed (ID (toEntry e)) (store _ (after _ (Dispatch now events d))).
Proof.
  revert d. induction events as [|e0 rest IH]; intros d; simpl; [intros []|].
  pose proof (settled_after_MarkFailed (toEntry e0) (store _ d)) as Hhead.
  destruct (Append (toEntry e0) (store _ d)) as [[failure|] s]; simpl in *.
  - intros [H|[]]; discriminate.
  - destruct (inner_Dispatch [e0] (inner _ d)) as [[forward_err|] i]; simpl.
    + intros [H|[H|[H|H]]]; try discriminate.
      * injection H as <-. split; [right; right; left; reflexivity|].
        apply Dispatch_keeps_settled. simpl. apply Hhead. reflexivity.
      * destruct (IH _ H) as [H1 H2]. split; [right; right; right; exact H1 | exact H2].
    + intros [H|[H|[H|H]]]; try discriminate.
      destruct (IH _ H) as [H1 H2]. split; [right; right; right; exact H1 | exact H2].
Qed.

Lemma Dispatch_forward_ok (now : Time) (events : list DomainEvent)
    (d : Dispatcher InnerDispatcher) (e : DomainEvent) :
  In (Forwarded e true) (steps _ (Dispatch now events d)) ->
  In (MarkedSynced (ID (toEntry e))) (steps _ (Dispatch now events d)).
Proof.
  revert d. induction events as [|e0 rest IH]; intros d; simpl; [intros []|].
  destruct (Append (toEntry e0) (store _ d)) as [[failure|] s]; simpl.
  - intros [H|[]]; discriminate.
  - destruct (inner_Dispatch [e0] (inner _ d)) as [[forward_err|] i]; simpl.
    + intros [H|[H|[H|H]]]; try discriminate.
      right; right; right. apply IH, H.
    + intros [H|[H|[H|H]]]; try discriminate.
      * injection H as <-. right; right; left; reflexivity.
      * right; right; right. apply IH, H.
Qed.

(** C8 (as the store has it). Dispatch returns an error exactly when the
    Append of some entry fails.  When an entry is appended and its
    forwarding fails, Dispatch calls MarkFailed on it and the forwarding
    error does not reach the caller; at the end of the Dispatch that entry is
    stored with status failed and one attempt, and ListPending, which lists
    pending entries only, does not return it.  An entry forwarded with
    success is marked synced. *)
Theorem Dispatch_fails_only_on_Append (now : Time) (events : list DomainEvent)
    (d : Dispatcher InnerDispatcher) :
  (is_Some (err _ (Dispatch now events d)) <->
   exists id, In (Appended id false) (steps _ (Dispatch now events d))) /\
  (forall e, In (Forwarded e false) (steps _ (Dispatch now events d)) ->
     In (MarkedFailed (ID (toEntry e))) (steps _ (Dispatch now events d)) /\
     status_of (ID (toEntry e)) (store _ (after _ (Dispatch now events d))) = Some "failed" /\
     attempts_of (ID (toEntry e)) (store _ (after _ (Dispatch now events d))) = Some 1 /\
     forall entries,
       ListPending (store _ (after _ (Dispatch now events d))) = Ok entries ->
       Forall (fun x => ID x <> ID (toEntry e)) entries) /\
  (forall e, In (Forwarded e true) (steps _ (Dispatch now events d)) ->
     In (MarkedSynced (ID (toEntry e))) (steps _ (Dispatch now events d))).
Proof.
  split; [apply Dispatch_err_iff|]. split.
  - intros e He. destruct (Dispatch_forward_failed now events d e He) as [Hm Hs].
    split; [exact Hm|]. apply settled_status, Hs.
  - intros e. apply Dispatch_forward_ok.
Qed.

End Dispatcher.

(** An inner dispatcher that is down, and a serialization of events. *)
Definition unreachable (events : list DomainEvent) (u : unit) : option error * unit :=
  (Some "notify: connection refused", u).

Definition entry_of (e : DomainEvent) : Entry :=
  match e with
  | MeetingCreated id _ at_time =>
      mkEntry ("evt-created-" ++ id) "meeting.created" None "pending" at_time None 0
  | TranscriptUpdated id _ =>
      mkEntry ("evt-transcript-" ++ id) "transcript.updated" None "pending" 0 None 0
  end.

(** C8 as stated fails on its last clause: after a Dispatch whose forwarding
    failed, the call has returned no error and the entry is stored as failed,
    yet ListPending returns nothing, so the entry is not there to replay. *)
Lemma failed_entry_not_listed_pending :
  err _ (Dispatch unit unreachable entry_of 5 [MeetingCreated "m-1" "Test" 1]
           (mkDispatcher unit NewSQLiteStore tt)) = None /\
  steps _ (Dispatch unit unreachable entry_of 5 [MeetingCreated "m-1" "Test" 1]
             (mkDispatcher unit NewSQLiteStore tt))
  = [Appended "evt-created-m-1" true; Forwarded (MeetingCreated "m-1" "Test" 1) false;
     MarkedFailed "evt-created-m-1"] /\
  status_of "evt-created-m-1"
    (store _ (after _ (Dispatch unit unreachable entry_of 5 [MeetingCreated "m-1" "Test" 1]
                         (mkDispatcher unit NewSQLiteStore tt)))) = Some "failed" /\
  ListPending
    (store _ (after _ (Dispatch unit unreachable entry_of 5 [MeetingCreated "m-1" "Test" 1]
                         (mkDispatcher unit NewSQLiteStore tt)))) = Ok [].
Proof. repeat split; reflexivity. Qed.

End OutboxDispatcherSpec.

(** ** Composition root (cmd/granola-mcp/main.go)

    The part of [main] that builds the [resilience.Config] handed to
    [resilience.NewResilientRepository] from the loaded configuration. *)

Module Main.






(** The [resilience.Config] literal of [main]. *)
Record Config := mkConfig {
  Timeout : Duration;
  MaxRetries : Z;
  RetryDelay : Duration;
  RetryMaxDelay : Duration;
  FailureThreshold : Z;
  SuccessThreshold : Z;
  HalfOpenTimeout : Duration;
  RateLimit : Z;
  RateBurst : Z;
  RateInterval : Duration
}.







End Main.

(** ** More of the cached repository: errors, expiry, eviction, framing *)

Module CacheMore.
Import Domain Cache.

Lemma cacheKey_inj (id id' : MeetingID) : cacheKey id = cacheKey id' -> id = id'.
Proof. unfold cacheKey. intros H. injection H as H. exact H. Qed.

Section Repository.

Variable Inner : Type.
Variable inner_FindByID : MeetingID -> Inner -> Result Meeting * Inner.
Variable inner_Sync : option Time -> Inner -> Result (list DomainEvent) * Inner.
Variable New_rejects : MeetingID -> string -> Time -> Source -> list Participant -> option error.
Variable New_events : MeetingID -> string -> Time -> Source -> list DomainEvent.
Variable Format_RFC3339 : Time -> string.
Variable Parse_RFC3339 : string -> option Time.
Variable json_Marshal : meetingCacheEntry -> option string.
Variable json_Unmarshal : string -> option meetingCacheEntry.

Abbreviation Repo := (CachedRepository Inner).
Abbreviation from_cache :=
  (Cache.from_cache Inner New_rejects New_events Parse_RFC3339 json_Unmarshal).
Abbreviation FindByID :=
  (Cache.FindByID Inner inner_FindByID New_rejects New_events Format_RFC3339 Parse_RFC3339
     json_Marshal json_Unmarshal).
Abbreviation Sync := (Cache.Sync Inner inner_Sync).
Abbreviation get := (Cache.get Inner).
Abbreviation set := (Cache.set Inner).
Abbreviation Evict := (Cache.Evict Inner).

(** What the first half of FindByID reads of the repository: the row of the
    key. *)
Lemma from_cache_ext (now : Time) (id : MeetingID) (r r' : Repo) :
  db _ r' !! cacheKey id = db _ r !! cacheKey id ->
  from_cache now id r' = from_cache now id r.
Proof.
  intros H. unfold Cache.from_cache, Cache.get. rewrite H. reflexivity.
Qed.

Lemma FindByID_db (now now' : Time) (id : MeetingID) (r : Repo) (key : string) :
  key <> cacheKey id ->
  db _ (snd (FindByID now now' id r)) !! key = db _ r !! key.
Proof.
  intros Hne. unfold Cache.FindByID.
  destruct (from_cache now id r); [reflexivity|].
  destruct (inner_FindByID id (inner _ r)) as [[m|e] i]; simpl; [|reflexivity].
  destruct (json_Marshal (toMeetingCacheEntry Format_RFC3339 m)); simpl; [|reflexivity].
  apply lookup_insert_ne. congruence.
Qed.

(** X1. A failed lookup is not cached: when the cache has nothing to serve
    and the inner repository fails, FindByID returns that error, the cache
    table is as before, and the inner repository has been asked once. *)
Theorem FindByID_error_is_not_cached (now now' : Time) (id : MeetingID) (r : Repo)
    (e : error) (i : Inner) :
  from_cache now id r = None ->
  inner_FindByID id (inner _ r) = (Err e, i) ->
  fst (FindByID now now' id r) = Err e /\
  db _ (snd (FindByID now now' id r)) = db _ r /\
  inner_calls _ (snd (FindByID now now' id r)) = (inner_calls _ r ++ [CallFindByID id])%list /\
  (forall t, from_cache t id (snd (FindByID now now' id r)) = from_cache t id r).
Proof.
  intros Hmiss Hinner. unfold Cache.FindByID. rewrite Hmiss, Hinner. simpl.
  repeat split; reflexivity.
Qed.

(** X2. Lazy expiry: a row whose expires_at is at or before the time of
    reading is not served; FindByID asks the inner repository, and when that
    succeeds the row is replaced by the new snapshot, expiring one ttl after
    the time of writing. *)
Theorem expired_entry_is_refetched (now now' : Time) (id : MeetingID) (r : Repo)
    (old : string) (expires_at : Time) (m : Meeting) (i : Inner) (data : string) :
  db _ r !! cacheKey id = Some (old, expires_at) ->
  expires_at <= now ->
  inner_FindByID id (inner _ r) = (Ok m, i) ->
  json_Marshal (toMeetingCacheEntry Format_RFC3339 m) = Some data ->
  fst (FindByID now now' id r) = Ok m /\
  inner_calls _ (snd (FindByID now now' id r)) = (inner_calls _ r ++ [CallFindByID id])%list /\
  db _ (snd (FindByID now now' id r)) !! cacheKey id = Some (data, now' + ttl _ r).
Proof.
  intros Hrow Hexp Hinner Hm.
  assert (Hmiss : from_cache now id r = None).
  { unfold Cache.from_cache, Cache.get. rewrite Hrow.
    destruct (Z.ltb_spec now expires_at); [lia | reflexivity]. }
  unfold Cache.FindByID. rewrite Hmiss, Hinner, Hm. simpl.
  split; [reflexivity|]. split; [reflexivity|]. apply lookup_insert_eq.
Qed.

(** X3. FindByID(id) writes at most the row of "meeting:" ++ id, and distinct
    ids have distinct keys: what the cache holds for another meeting, and
    what it would serve for it at any time, is unchanged. *)
Theorem FindByID_touches_only_its_key (now now' : Time) (id id' : MeetingID) (r : Repo) :
  id' <> id ->
  db _ (snd (FindByID now now' id r)) !! cacheKey id' = db _ r !! cacheKey id' /\
  (forall t, from_cache t id' (snd (FindByID now now' id r)) = from_cache t id' r) /\
  (forall key, key <> cacheKey id ->
               db _ (snd (FindByID now now' id r)) !! key = db _ r !! key).
Proof.
  intros Hne.
  assert (Hk : cacheKey id' <> cacheKey id).
  { intros E. apply Hne. apply cacheKey_inj, E. }
  split; [apply FindByID_db, Hk|].
  split; [intros t; apply from_cache_ext, FindByID_db, Hk|].
  intros key. apply FindByID_db.
Qed.

(** X4. The MeetingCreated path of Sync: after a Sync that succeeds with a
    MeetingCreated event for X among its events, the row "meeting:X" is gone
    and the next FindByID(X), whenever it comes, asks the inner repository. *)
Theorem MeetingCreated_forces_refetch (since : option Time) (r : Repo)
    (events : list DomainEvent) (id : MeetingID) (title : string) (datetime : Time)
    (now now' : Time) :
  fst (Sync since r) = Ok events ->
  In (MeetingCreated id title datetime) events ->
  db _ (snd (Sync since r)) !! cacheKey id = None /\
  from_cache now id (snd (Sync since r)) = None /\
  inner_calls _ (snd (FindByID now now' id (snd (Sync since r))))
  = (inner_calls _ r ++ [CallSync since; CallFindByID id])%list.
Proof.
  intros Hok Hin.
  assert (Hgone : db _ (snd (Sync since r)) !! cacheKey id = None).
  { rewrite (Cache.Sync_invalidates_only_MeetingCreated Inner inner_Sync since r events _ Hok).
    replace (existsb _ events) with true; [reflexivity|].
    symmetry. apply existsb_exists. exists (MeetingCreated id title datetime).
    split; [exact Hin | apply String.eqb_refl]. }
  assert (Hmiss : from_cache now id (snd (Sync since r)) = None).
  { unfold Cache.from_cache, Cache.get. rewrite Hgone. reflexivity. }
  split; [exact Hgone|]. split; [exact Hmiss|].
  rewrite (Cache.from_cache_miss_calls_inner Inner inner_FindByID New_rejects New_events
             Format_RFC3339 Parse_RFC3339 json_Marshal json_Unmarshal now now' id _ Hmiss).
  unfold Cache.Sync in *. destruct (inner_Sync since (inner _ r)) as [[evs|e] i]; simpl in *.
  - rewrite <- app_assoc. reflexivity.
  - discriminate.
Qed.

(** X5. What Sync leaves alone: when the inner Sync fails the cache table is
    as before and the error is handed on; when it succeeds, every row whose
    key is not that of a MeetingCreated event it returned is as before. *)
Theorem Sync_keeps_other_rows (since : option Time) (r : Repo) :
  (forall e, fst (Sync since r) = Err e ->
             fst (inner_Sync since (inner _ r)) = Err e /\
             db _ (snd (Sync since r)) = db _ r) /\
  (forall events key,
     fst (Sync since r) = Ok events ->
     (forall id title datetime,
        In (MeetingCreated id title datetime) events -> cacheKey id <> key) ->
     db _ (snd (Sync since r)) !! key = db _ r !! key) /\
  inner_calls _ (snd (Sync since r)) = (inner_calls _ r ++ [CallSync since])%list.
Proof.
  split; [|split].
  - intros e. unfold Cache.Sync.
    destruct (inner_Sync since (inner _ r)) as [[evs|e'] i]; simpl; [discriminate|].
    intros [= ->]. split; reflexivity.
  - intros events key Hok Hnone.
    rewrite (Cache.Sync_invalidates_only_MeetingCreated Inner inner_Sync since r events _ Hok).
    destruct (existsb _ events) eqn:E; [|reflexivity].
    apply existsb_exists in E. destruct E as [ev [Hin Hev]].
    destruct ev as [id title datetime|id n]; [|discriminate].
    apply String.eqb_eq in Hev. exfalso. exact (Hnone id title datetime Hin Hev).
  - unfold Cache.Sync.
    destruct (inner_Sync since (inner _ r)) as [[evs|e'] i]; reflexivity.
Qed.

(** A miss stays a miss as time passes, as long as the row is not written. *)
Lemma from_cache_None_later (now later : Time) (id : MeetingID) (r : Repo) :
  now <= later -> from_cache now id r = None -> from_cache later id r = None.
Proof.
  intros Hle. unfold Cache.from_cache, Cache.get.
  destruct (db _ r !! cacheKey id) as [[v e]|]; [|reflexivity].
  destruct (Z.ltb_spec now e), (Z.ltb_spec later e); try lia; auto.
Qed.

(** X6. A ttl of zero or less turns the cache off: after a FindByID that went
    to the inner repository, a second FindByID for the same id, read at or
    after the time the first one wrote, goes to the inner repository again. *)
Theorem nonpositive_ttl_disables_cache (now1 now1' now2 now2' : Time) (id : MeetingID)
    (r : Repo) :
  ttl _ r <= 0 ->
  now1 <= now1' ->
  now1' <= now2 ->
  from_cache now1 id r = None ->
  inner_calls _ (snd (FindByID now2 now2' id (snd (FindByID now1 now1' id r))))
  = (inner_calls _ r ++ [CallFindByID id; CallFindByID id])%list.
Proof.
  intros Httl H1 H2 Hmiss.
  assert (Hmiss2 : from_cache now2 id (snd (FindByID now1 now1' id r)) = None).
  { unfold Cache.FindByID at 1. rewrite Hmiss.
    destruct (inner_FindByID id (inner _ r)) as [[m|e] i]; simpl.
    - destruct (json_Marshal (toMeetingCacheEntry Format_RFC3339 m)) as [data|]; simpl.
      + unfold Cache.from_cache, Cache.get, Cache.set, Cache.with_db; simpl.
        rewrite lookup_insert_eq.
        destruct (Z.ltb_spec now2 (now1' + ttl _ r)); [lia | reflexivity].
      + apply (from_cache_None_later now1 now2 id); [lia|].
        rewrite <- Hmiss. apply from_cache_ext. reflexivity.
    - apply (from_cache_None_later now1 now2 id); [lia|].
      rewrite <- Hmiss. apply from_cache_ext. reflexivity. }
  rewrite (Cache.from_cache_miss_calls_inner Inner inner_FindByID New_rejects New_events
             Format_RFC3339 Parse_RFC3339 json_Marshal json_Unmarshal now2 now2' id _ Hmiss2).
  rewrite (Cache.from_cache_miss_calls_inner Inner inner_FindByID New_rejects New_events
             Format_RFC3339 Parse_RFC3339 json_Marshal json_Unmarshal now1 now1' id _ Hmiss).
  rewrite <- app_assoc. reflexivity.
Qed.

(** X7. Evict reports no error, drops exactly the rows whose expires_at is at
    or before its clock, and is invisible to readers: any FindByID whose read
    is not earlier than the eviction returns the same result and makes the
    same calls on the inner repository as without it. *)
Theorem Evict_drops_expired_only (swept : Time) (r : Repo) :
  fst (Evict swept r) = None /\
  (forall key value expires_at,
     db _ (snd (Evict swept r)) !! key = Some (value, expires_at) <->
     db _ r !! key = Some (value, expires_at) /\ swept < expires_at) /\
  (forall now now' id,
     swept <= now ->
     fst (FindByID now now' id (snd (Evict swept r))) = fst (FindByID now now' id r) /\
     inner_calls _ (snd (FindByID now now' id (snd (Evict swept r))))
     = inner_calls _ (snd (FindByID now now' id r))).
Proof.
  split; [reflexivity|]. split.
  - intros key value expires_at. unfold Cache.Evict, Cache.with_db; simpl.
    rewrite map_lookup_filter_Some. simpl. reflexivity.
  - intros now now' id Hle.
    assert (Hfc : from_cache now id (snd (Evict swept r)) = from_cache now id r).
    { unfold Cache.from_cache.
      rewrite (Cache.get_Evict Inner swept now (cacheKey id) r Hle). reflexivity. }
    unfold Cache.FindByID. rewrite Hfc.
    destruct (from_cache now id r); [split; reflexivity|].
    change (inner _ (snd (Evict swept r))) with (inner _ r).
    destruct (inner_FindByID id (inner _ r)) as [[m|e] i]; simpl; [|split; reflexivity].
    destruct (json_Marshal (toMeetingCacheEntry Format_RFC3339 m)); split; reflexivity.
Qed.

End Repository.

End CacheMore.

Module CacheMoreExamples.
Import Domain Cache Fixtures CacheExamples.

Definition snapshot : string :=
  match json_Marshal (toMeetingCacheEntry Format_RFC3339 sprint_planning) with
  | Some data => data
  | None => EmptyString
  end.

Definition created : DomainEvent := MeetingCreated "m-1" "Sprint Planning" t0.

(** A repository whose ttl is zero. *)
Definition uncached : CachedRepository mockRepo :=
  mkRepo mockRepo (mkMock [("m-1", sprint_planning)] []) ∅ 0 [].

Lemma FindByID_error_is_not_cached_witness :
  fst (FindByID t0 t0 "m-9" (repo0 [])) = Err "meeting not found" /\
  db _ (snd (FindByID t0 t0 "m-9" (repo0 []))) = db _ (repo0 []) /\
  inner_calls _ (snd (FindByID t0 t0 "m-9" (repo0 [])))
  = (inner_calls _ (repo0 []) ++ [CallFindByID "m-9"])%list.
Proof.
  destruct (CacheMore.FindByID_error_is_not_cached mockRepo mock_FindByID New_rejects
              New_events Format_RFC3339 Parse_RFC3339 json_Marshal json_Unmarshal
              t0 t0 "m-9" (repo0 []) "meeting not found" (inner _ (repo0 [])))
    as (H1 & H2 & H3 & _).
  - vm_compute; reflexivity.
  - vm_compute; reflexivity.
  - split; [exact H1|]. split; [exact H2 | exact H3].
Defined.

Lemma expired_entry_is_refetched_witness :
  fst (FindByID (t0 + 16 * minute) (t0 + 16 * minute) "m-1" (warmed [])) = Ok sprint_planning /\
  inner_calls _ (snd (FindByID (t0 + 16 * minute) (t0 + 16 * minute) "m-1" (warmed [])))
  = (inner_calls _ (warmed []) ++ [CallFindByID "m-1"])%list /\
  db _ (snd (FindByID (t0 + 16 * minute) (t0 + 16 * minute) "m-1" (warmed [])))
    !! cacheKey "m-1"
  = Some (snapshot, t0 + 16 * minute + ttl _ (warmed [])).
Proof.
  apply (CacheMore.expired_entry_is_refetched mockRepo mock_FindByID New_rejects
           New_events Format_RFC3339 Parse_RFC3339 json_Marshal json_Unmarshal
           (t0 + 16 * minute) (t0 + 16 * minute) "m-1" (warmed [])
           snapshot (t0 + 15 * minute) sprint_planning (inner _ (warmed [])) snapshot).
  - vm_compute; reflexivity.
  - vm_compute; discriminate.
  - vm_compute; reflexivity.
  - vm_compute; reflexivity.
Defined.

Lemma FindByID_touches_only_its_key_witness :
  db _ (snd (FindByID t0 t0 "m-1" (repo0 []))) !! cacheKey "m-2"
  = db _ (repo0 []) !! cacheKey "m-2" /\
  is_Some (db _ (snd (FindByID t0 t0 "m-1" (repo0 []))) !! cacheKey "m-1").
Proof.
  split.
  - refine (proj1 (CacheMore.FindByID_touches_only_its_key mockRepo mock_FindByID New_rejects
                     New_events Format_RFC3339 Parse_RFC3339 json_Marshal json_Unmarshal
                     t0 t0 "m-1" "m-2" (repo0 []) _)).
    discriminate.
  - vm_compute; eexists; reflexivity.
Defined.

Lemma MeetingCreated_forces_refetch_witness :
  db _ (snd (Sync None (warmed [created]))) !! cacheKey "m-1" = None /\
  from_cache mockRepo New_rejects New_events Parse_RFC3339 json_Unmarshal
    (t0 + minute) "m-1" (snd (Sync None (warmed [created]))) = None /\
  inner_calls _ (snd (FindByID (t0 + minute) (t0 + minute) "m-1"
                        (snd (Sync None (warmed [created])))))
  = (inner_calls _ (warmed [created]) ++ [CallSync None; CallFindByID "m-1"])%list.
Proof.
  apply (CacheMore.MeetingCreated_forces_refetch mockRepo mock_FindByID mock_Sync New_rejects
           New_events Format_RFC3339 Parse_RFC3339 json_Marshal json_Unmarshal
           None (warmed [created]) [created] "m-1" "Sprint Planning" t0
           (t0 + minute) (t0 + minute)).
  - vm_compute; reflexivity.
  - left; reflexivity.
Defined.

Lemma nonpositive_ttl_disables_cache_witness :
  inner_calls _ (snd (FindByID (t0 + 1) (t0 + 1) "m-1" (snd (FindByID t0 t0 "m-1" uncached))))
  = (inner_calls _ uncached ++ [CallFindByID "m-1"; CallFindByID "m-1"])%list.
Proof.
  apply (CacheMore.nonpositive_ttl_disables_cache mockRepo mock_FindByID New_rejects
           New_events Format_RFC3339 Parse_RFC3339 json_Marshal json_Unmarshal
           t0 t0 (t0 + 1) (t0 + 1) "m-1" uncached).
  - vm_compute; discriminate.
  - vm_compute; discriminate.
  - vm_compute; discriminate.
  - vm_compute; reflexivity.
Defined.

End CacheMoreExamples.

(** ** More of the outbox store: unknown ids, attempts, retention, order *)

Module OutboxMore.
Import Outbox.

Definition synced_at_of (id : string) (s : SQLiteStore) : option (option Time) :=
  option_map r_synced_at (find_row id s).

(** The columns no statement of the store rewrites. *)
Definition identity (r : Row) : string * string * string * Time :=
  (r_id r, r_event_type r, r_payload r, r_created_at r).

Definition marks (id : string) (o : Op) : bool :=
  match o with
  | OpAppend _ => false
  | OpMarkSynced _ id' => String.eqb id' id
  | OpMarkFailed id' => String.eqb id' id
  end.

Definition fails (id : string) (o : Op) : bool :=
  match o with
  | OpMarkFailed id' => String.eqb id' id
  | _ => false
  end.


Lemma update_where_absent (id : string) (f : Row -> Row) (rows : list Row) :
  has_id id rows = false -> update_where id f rows = rows.
Proof.
  unfold has_id, update_where. induction rows as [|x t IH]; simpl; [reflexivity|].
  intros H. apply orb_false_iff in H. destruct H as [Hx Ht].
  rewrite Hx, (IH Ht). reflexivity.
Qed.

(** X8. MarkSynced and MarkFailed on an id the table does not hold report no
    error and leave the store exactly as it was. *)
Theorem marks_on_unknown_id_change_nothing (now : Time) (id : string) (s : SQLiteStore) :
  has_id id (outbox_entries s) = false ->
  MarkSynced now id s = (None, s) /\ MarkFailed id s = (None, s).
Proof.
  intros H. unfold MarkSynced, MarkFailed.
  rewrite !(update_where_absent _ _ _ H). destruct s; split; reflexivity.
Qed.

Lemma find_row_step (o : Op) (id : string) (s : SQLiteStore) (r : Row) :
  find_row id s = Some r ->
  find_row id (step o s)
  = Some (match o with
          | OpAppend _ => r
          | OpMarkSynced now id' =>
              if String.eqb id id'
              then mkRow (r_id r) (r_event_type r) (r_payload r) "synced"
                         (r_created_at r) (Some now) (r_attempts r)
              else r
          | OpMarkFailed id' =>
              if String.eqb id id'
              then mkRow (r_id r) (r_event_type r) (r_payload r) "failed"
                         (r_created_at r) (r_synced_at r) (r_attempts r + 1)
              else r
          end).
Proof.
  intros Hr. pose proof (OutboxSpec.find_some_key _ _ _ Hr) as [Hid _].
  destruct o as [e|now id'|id']; cbn [step].
  - unfold Append. destruct (has_id (ID e) (outbox_entries s)); simpl; [exact Hr|].
    unfold find_row in *; simpl. apply OutboxSpec.find_app_some, Hr.
  - unfold MarkSynced; simpl. unfold find_row at 1; simpl.
    rewrite OutboxSpec.find_row_update by reflexivity. rewrite Hr. simpl. rewrite Hid.
    reflexivity.
  - unfold MarkFailed; simpl. unfold find_row at 1; simpl.
    rewrite OutboxSpec.find_row_update by reflexivity. rewrite Hr. simpl. rewrite Hid.
    reflexivity.
Qed.

(** X9. The attempts of a stored entry count the MarkFailed calls on its id:
    over any sequence of Append, MarkSynced and MarkFailed calls they grow by
    the number of MarkFailed calls made with that id, whatever the status of
    the entry at the time, and by nothing else. *)
Theorem attempts_count_MarkFailed (ops : list Op) (id : string) (s : SQLiteStore) (a : Z) :
  attempts_of id s = Some a ->
  attempts_of id (run ops s) = Some (a + Z.of_nat (length (List.filter (fails id) ops))).
Proof.
  revert s a. induction ops as [|o ops IH]; intros s a Ha; cbn [run fold_left].
  - simpl. rewrite Z.add_0_r. exact Ha.
  - unfold attempts_of in Ha. destruct (find_row id s) as [r|] eqn:Hr; [|discriminate].
    injection Ha as <-.
    pose proof (find_row_step o id s r Hr) as Hstep.
    change (fold_left (fun s o => step o s) ops (step o s)) with (run ops (step o s)).
    destruct o as [e|now id'|id']; cbn [List.filter fails].
    + rewrite (IH _ (r_attempts r)); [reflexivity|].
      unfold attempts_of. rewrite Hstep. reflexivity.
    + rewrite (IH _ (r_attempts r)); [reflexivity|].
      unfold attempts_of. rewrite Hstep. destruct (String.eqb id id'); reflexivity.
    + rewrite String.eqb_sym.
      destruct (String.eqb id id') eqn:E.
      * rewrite (IH _ (r_attempts r + 1)).
        { cbn [length]. f_equal. lia. }
        unfold attempts_of. rewrite Hstep. reflexivity.
      * rewrite (IH _ (r_attempts r)); [reflexivity|].
        unfold attempts_of. rewrite Hstep. reflexivity.
Qed.

(** X10. MarkSynced stamps synced_at with its clock and nothing clears the
    stamp: a MarkFailed that follows makes the entry failed, adds an attempt
    and keeps synced_at, so a failed entry may carry a synced_at. *)
Theorem MarkFailed_keeps_synced_at (now : Time) (id : string) (s : SQLiteStore) (r : Row) :
  find_row id s = Some r ->
  synced_at_of id (snd (MarkSynced now id s)) = Some (Some now) /\
  status_of id (snd (MarkFailed id (snd (MarkSynced now id s)))) = Some "failed" /\
  synced_at_of id (snd (MarkFailed id (snd (MarkSynced now id s)))) = Some (Some now) /\
  attempts_of id (snd (MarkFailed id (snd (MarkSynced now id s)))) = Some (r_attempts r + 1) /\
  synced_at_of id (snd (MarkFailed id s)) = Some (r_synced_at r).
Proof.
  intros Hr.
  pose proof (find_row_step (OpMarkSynced now id) id s r Hr) as H1.
  cbn [step] in H1. rewrite String.eqb_refl in H1.
  pose proof (find_row_step (OpMarkFailed id) id _ _ H1) as H2.
  cbn [step] in H2. rewrite String.eqb_refl in H2.
  pose proof (find_row_step (OpMarkFailed id) id s r Hr) as H3.
  cbn [step] in H3. rewrite String.eqb_refl in H3.
  unfold synced_at_of, status_of, attempts_of. rewrite H1, H2, H3.
  repeat split; reflexivity.
Qed.

Lemma step_identity (o : Op) (s : SQLiteStore) :
  exists tail,
    List.map identity (outbox_entries (step o s))
    = (List.map identity (outbox_entries s) ++ tail)%list.
Proof.
  destruct o as [e|now id|id]; cbn [step].
  - unfold Append. destruct (has_id (ID e) (outbox_entries s)); simpl.
    + exists []. rewrite app_nil_r. reflexivity.
    + eexists. rewrite List.map_app. reflexivity.
  - exists []. rewrite app_nil_r. unfold MarkSynced, update_where; simpl.
    rewrite List.map_map. apply List.map_ext. intros r.
    destruct (String.eqb (r_id r) id); reflexivity.
  - exists []. rewrite app_nil_r. unfold MarkFailed, update_where; simpl.
    rewrite List.map_map. apply List.map_ext. intros r.
    destruct (String.eqb (r_id r) id); reflexivity.
Qed.

(** X11. The store never deletes, reorders or rewrites an entry's identity:
    after any sequence of Append, MarkSynced and MarkFailed calls the rows
    there were are still there, in the same order and with the same id, event
    type, payload and created_at; new rows only come after them. *)
Theorem rows_are_retained (ops : list Op) (s : SQLiteStore) :
  exists tail,
    List.map identity (outbox_entries (run ops s))
    = (List.map identity (outbox_entries s) ++ tail)%list.
Proof.
  revert s. induction ops as [|o ops IH]; intros s; cbn [run fold_left].
  - exists []. rewrite app_nil_r. reflexivity.
  - destruct (step_identity o s) as [t1 H1].
    destruct (IH (step o s)) as [t2 H2].
    exists (t1 ++ t2)%list. unfold run in H2. rewrite H2, H1, app_assoc. reflexivity.
Qed.

(** X12. A pending entry stays pending, and ListPending keeps returning it,
    until MarkSynced or MarkFailed is called with its id: Appends and marks
    of other ids do not touch it. *)
Theorem pending_until_marked (ops : list Op) (id : string) (s : SQLiteStore) :
  status_of id s = Some "pending" ->
  forallb (fun o => negb (marks id o)) ops = true ->
  status_of id (run ops s) = Some "pending" /\
  exists entries entry,
    ListPending (run ops s) = Ok entries /\ In entry entries /\ ID entry = id.
Proof.
  intros Hst Hops.
  assert (Hrun : status_of id (run ops s) = Some "pending").
  { revert s Hst. induction ops as [|o ops IH]; intros s Hst; [exact Hst|].
    cbn [forallb] in Hops. apply andb_true_iff in Hops. destruct Hops as [Ho Hops].
    cbn [run fold_left]. apply (IH Hops).
    unfold status_of in *. destruct (find_row id s) as [r|] eqn:Hr; [|discriminate].
    rewrite (find_row_step o id s r Hr). simpl in Hst.
    destruct o as [e|now id'|id']; cbn [marks] in Ho; simpl.
    - exact Hst.
    - rewrite String.eqb_sym in Ho. destruct (String.eqb id id'); [discriminate | exact Hst].
    - rewrite String.eqb_sym in Ho. destruct (String.eqb id id'); [discriminate | exact Hst]. }
  split; [exact Hrun|].
  unfold status_of in Hrun. destruct (find_row id (run ops s)) as [r|] eqn:Hr; [|discriminate].
  injection Hrun as Hp.
  apply OutboxSpec.find_some_key in Hr. destruct Hr as [Hid Hin].
  eexists. exists (scan r). split; [reflexivity|]. split; [|exact Hid].
  apply in_map.
  apply (Permutation_in _ (Permutation_sym (OutboxSpec.order_by_created_perm _))).
  apply filter_In. split; [exact Hin|]. unfold is_pending. rewrite Hp. reflexivity.
Qed.







Definition evt (id : string) (at_time : Time) : Entry :=
  mkEntry id "note.added" None EmptyString at_time None 0.


Lemma marks_on_unknown_id_change_nothing_witness :
  MarkSynced 7 "evt-9" (run [OpAppend (evt "evt-1" 1)] NewSQLiteStore)
  = (None, run [OpAppend (evt "evt-1" 1)] NewSQLiteStore) /\
  MarkFailed "evt-9" (run [OpAppend (evt "evt-1" 1)] NewSQLiteStore)
  = (None, run [OpAppend (evt "evt-1" 1)] NewSQLiteStore).
Proof.
  apply (marks_on_unknown_id_change_nothing 7 "evt-9"). reflexivity.
Defined.

Lemma attempts_count_MarkFailed_witness :
  attempts_of "evt-1"
    (run [OpMarkFailed "evt-1"; OpAppend (evt "evt-2" 2); OpMarkSynced 5 "evt-1";
          OpMarkFailed "evt-2"; OpMarkFailed "evt-1"]
       (run [OpAppend (evt "evt-1" 1)] NewSQLiteStore))
  = Some (0 + Z.of_nat (length (List.filter (fails "evt-1")
       [OpMarkFailed "evt-1"; OpAppend (evt "evt-2" 2); OpMarkSynced 5 "evt-1";
        OpMarkFailed "evt-2"; OpMarkFailed "evt-1"]))).
Proof.
  apply (attempts_count_MarkFailed _ "evt-1" (run [OpAppend (evt "evt-1" 1)] NewSQLiteStore) 0).
  reflexivity.
Defined.

Lemma MarkFailed_keeps_synced_at_witness :
  synced_at_of "evt-1"
    (snd (MarkSynced 7 "evt-1" (run [OpAppend (evt "evt-1" 1)] NewSQLiteStore)))
  = Some (Some 7) /\
  status_of "evt-1"
    (snd (MarkFailed "evt-1"
            (snd (MarkSynced 7 "evt-1" (run [OpAppend (evt "evt-1" 1)] NewSQLiteStore)))))
  = Some "failed" /\
  synced_at_of "evt-1"
    (snd (MarkFailed "evt-1"
            (snd (MarkSynced 7 "evt-1" (run [OpAppend (evt "evt-1" 1)] NewSQLiteStore)))))
  = Some (Some 7).
Proof.
  destruct (MarkFailed_keeps_synced_at 7 "evt-1"
              (run [OpAppend (evt "evt-1" 1)] NewSQLiteStore)
              (mkRow "evt-1" "note.added" "{}" "pending" 1 None 0) eq_refl)
    as (H1 & H2 & H3 & _).
  split; [exact H1|]. split; [exact H2 | exact H3].
Defined.

Lemma pending_until_marked_witness :
  status_of "evt-1"
    (run [OpAppend (evt "evt-2" 2); OpMarkFailed "evt-2"; OpMarkSynced 5 "evt-3"]
       (run [OpAppend (evt "evt-1" 1)] NewSQLiteStore)) = Some "pending" /\
  exists entries entry,
    ListPending
      (run [OpAppend (evt "evt-2" 2); OpMarkFailed "evt-2"; OpMarkSynced 5 "evt-3"]
         (run [OpAppend (evt "evt-1" 1)] NewSQLiteStore)) = Ok entries /\
    In entry entries /\ ID entry = "evt-1".
Proof.
  apply (pending_until_marked _ "evt-1" (run [OpAppend (evt "evt-1" 1)] NewSQLiteStore));
    reflexivity.
Defined.


End OutboxMore.

(** ** Export use case (internal/application/export/export_meeting.go)

    [ExportMeeting.Execute] reads a meeting through the repository port, which
    in the composition root is the cached repository, and renders it. *)

Module ExportMeeting.
Import Domain.

Definition FormatJSON : string := "json".
Definition FormatMarkdown : string := "md".
Definition FormatText : string := "txt".

Definition ErrUnsupportedFormat : error := "unsupported export format".

Record ExportMeetingInput := mkInput {
  in_MeetingID : MeetingID;
  in_Format : string
}.

Record ExportMeetingOutput := mkOutput {
  Content : string;
  Format : string
}.

(** An action item, as the getters [formatMarkdown] calls show it. *)
Record ActionItem := mkActionItem {
  Text : string;
  Owner : string;
  IsCompleted : bool
}.

Definition nl : string := String (Ascii.ascii_of_nat 10) EmptyString.
Definition dquote : string := String (Ascii.ascii_of_nat 34) EmptyString.

Section UseCase.

(** The repository port, as far as the use case goes. *)
Variable Repo : Type.
Variable repo_FindByID : MeetingID -> Repo -> Result Meeting * Repo.

(** [domain.ErrInvalidMeetingID]. *)
Variable ErrInvalidMeetingID : error.

(** [time.Time.Format(time.RFC3339)]. *)
Variable Format_RFC3339 : Time -> string.

(** The getters of a meeting that module [Domain] does not carry:
    [m.Summary()], nil or with its [Content()], and [m.ActionItems()]. *)
Variable Summary : Meeting -> option string.
Variable ActionItems : Meeting -> list ActionItem.

Definition participant_line (p : Participant) : string :=
  "- " ++ Name p ++ " (" ++ Email p ++ ")" ++ nl.

Definition participants_block (m : Meeting) : string :=
  match Participants m with
  | [] => EmptyString
  | ps => "## Participants" ++ nl ++ nl
          ++ fold_right (fun p acc => participant_line p ++ acc) EmptyString ps ++ nl
  end.

Definition summary_block (m : Meeting) : string :=
  match Summary m with
  | Some content => "## Summary" ++ nl ++ nl ++ content ++ nl ++ nl
  | None => EmptyString
  end.

Definition action_item_line (item : ActionItem) : string :=
  "- " ++ (if IsCompleted item then "[x]" else "[ ]") ++ " " ++ Text item
       ++ " (Owner: " ++ Owner item ++ ")" ++ nl.

Definition action_items_block (m : Meeting) : string :=
  match ActionItems m with
  | [] => EmptyString
  | items => "## Action Items" ++ nl ++ nl
             ++ fold_right (fun i acc => action_item_line i ++ acc) EmptyString items ++ nl
  end.

Definition markdown_header (m : Meeting) : string :=
  "# " ++ Title m ++ nl ++ nl
  ++ "**Date:** " ++ Format_RFC3339 (Datetime m) ++ nl
  ++ "**Source:** " ++ MSource m ++ nl ++ nl.

Definition formatMarkdown (m : Meeting) : string :=
  markdown_header m ++ participants_block m ++ summary_block m ++ action_items_block m.

Definition formatText (m : Meeting) : string :=
  Title m ++ nl
  ++ "Date: " ++ Format_RFC3339 (Datetime m) ++ nl
  ++ "Source: " ++ MSource m ++ nl
  ++ match Summary m with
     | Some content => nl ++ "Summary:" ++ nl ++ content ++ nl
     | None => EmptyString
     end.

(** The format string of [formatJSON] with its four [%s] filled in. *)
Definition formatJSON (m : Meeting) : string :=
  "{" ++ dquote ++ "id" ++ dquote ++ ":" ++ dquote ++ ID m ++ dquote ++ ","
      ++ dquote ++ "title" ++ dquote ++ ":" ++ dquote ++ Title m ++ dquote ++ ","
      ++ dquote ++ "datetime" ++ dquote ++ ":" ++ dquote ++ Format_RFC3339 (Datetime m)
      ++ dquote ++ ","
      ++ dquote ++ "source" ++ dquote ++ ":" ++ dquote ++ MSource m ++ dquote ++ "}".

Definition Execute (input : ExportMeetingInput) (repo : Repo)
    : Result ExportMeetingOutput * Repo :=
  if String.eqb (in_MeetingID input) EmptyString then (Err ErrInvalidMeetingID, repo)
  else
    let (res, repo') := repo_FindByID (in_MeetingID input) repo in
    match res with
    | Err e => (Err e, repo')
    | Ok mtg =>
        if String.eqb (in_Format input) FormatMarkdown then
          (Ok (mkOutput (formatMarkdown mtg) (in_Format input)), repo')
        else if String.eqb (in_Format input) FormatText then
          (Ok (mkOutput (formatText mtg) (in_Format input)), repo')
        else if String.eqb (in_Format input) FormatJSON then
          (Ok (mkOutput (formatJSON mtg) (in_Format input)), repo')
        else if String.eqb (in_Format input) EmptyString then
          (Ok (mkOutput (formatJSON mtg) FormatJSON), repo')
        else (Err ErrUnsupportedFormat, repo')
    end.

End UseCase.

End ExportMeeting.

(** ** Properties of the export use case *)

Module ExportMeetingSpec.
Import Domain ExportMeeting.

(** What an id or title must contain to pass for the next field. *)
Definition title_separator : string :=
  dquote ++ "," ++ dquote ++ "title" ++ dquote ++ ":" ++ dquote.

Lemma length_append (a b : string) :
  String.length (a ++ b) = (String.length a + String.length b)%nat.
Proof.
  induction a as [|x a IH]; [reflexivity|].
  rewrite Fixtures.append_cons. simpl. rewrite IH. reflexivity.
Qed.

Lemma append_neq_self (a t b : string) :
  t <> EmptyString -> a ++ t ++ b <> a.
Proof.
  intros Ht E. apply (f_equal String.length) in E.
  rewrite !length_append in E. destruct t; [contradiction|]. simpl in E. lia.
Qed.

Section UseCase.

Variable Repo : Type.
Variable repo_FindByID : MeetingID -> Repo -> Result Meeting * Repo.
Variable ErrInvalidMeetingID : error.
Variable Format_RFC3339 : Time -> string.
Variable Summary : Meeting -> option string.
Variable ActionItems : Meeting -> list ActionItem.

Abbreviation Execute :=
  (ExportMeeting.Execute Repo repo_FindByID ErrInvalidMeetingID Format_RFC3339 Summary
     ActionItems).

(** X14. The outcomes of Execute.  An empty meeting id is refused before the
    repository is consulted.  Otherwise the repository is consulted first: its
    error is returned whatever the format, and an unknown format is reported
    only after a successful lookup.  On success the output format is json, md
    or txt, never empty: the empty format gives the JSON rendering under the
    name json. *)
Theorem Execute_outcomes (input : ExportMeetingInput) (repo : Repo) :
  (in_MeetingID input = EmptyString ->
   Execute input repo = (Err ErrInvalidMeetingID, repo)) /\
  (forall e repo',
     in_MeetingID input <> EmptyString ->
     repo_FindByID (in_MeetingID input) repo = (Err e, repo') ->
     Execute input repo = (Err e, repo')) /\
  (forall m repo',
     in_MeetingID input <> EmptyString ->
     repo_FindByID (in_MeetingID input) repo = (Ok m, repo') ->
     (in_Format input = FormatMarkdown /\
      Execute input repo
      = (Ok (mkOutput (formatMarkdown Format_RFC3339 Summary ActionItems m) FormatMarkdown),
         repo')) \/
     (in_Format input = FormatText /\
      Execute input repo
      = (Ok (mkOutput (formatText Format_RFC3339 Summary m) FormatText), repo')) \/
     ((in_Format input = FormatJSON \/ in_Format input = EmptyString) /\
      Execute input repo = (Ok (mkOutput (formatJSON Format_RFC3339 m) FormatJSON), repo')) \/
     (in_Format input <> FormatMarkdown /\ in_Format input <> FormatText /\
      in_Format input <> FormatJSON /\ in_Format input <> EmptyString /\
      Execute input repo = (Err ErrUnsupportedFormat, repo'))).
Proof.
  unfold ExportMeeting.Execute. split; [|split].
  - intros ->. reflexivity.
  - intros e repo' Hid Hrepo.
    destruct (String.eqb_spec (in_MeetingID input) EmptyString); [contradiction|].
    rewrite Hrepo. reflexivity.
  - intros m repo' Hid Hrepo.
    destruct (String.eqb_spec (in_MeetingID input) EmptyString); [contradiction|].
    rewrite Hrepo.
    destruct (String.eqb_spec (in_Format input) FormatMarkdown) as [E1|N1].
    { left. rewrite E1. split; reflexivity. }
    destruct (String.eqb_spec (in_Format input) FormatText) as [E2|N2].
    { right; left. rewrite E2. split; reflexivity. }
    destruct (String.eqb_spec (in_Format input) FormatJSON) as [E3|N3].
    { right; right; left. rewrite E3. split; [left|]; reflexivity. }
    destruct (String.eqb_spec (in_Format input) EmptyString) as [E4|N4].
    { right; right; left. split; [right; exact E4 | reflexivity]. }
    right; right; right. repeat split; assumption.
Qed.

(** X15. formatJSON pastes its fields between quotes without escaping them:
    a quote inside a field ends the field.  So two different meetings, one
    whose id runs on into what passes for a title field and one whose title
    does, are exported to the same text. *)
Theorem formatJSON_does_not_escape (a b c : string) (datetime : Time) (source : Source)
    (ps : list Participant) (evs : list DomainEvent) :
  formatJSON Format_RFC3339 (mkMeeting (a ++ title_separator ++ b) c datetime source ps evs)
  = formatJSON Format_RFC3339 (mkMeeting a (b ++ title_separator ++ c) datetime source ps evs) /\
  mkMeeting (a ++ title_separator ++ b) c datetime source ps evs
  <> mkMeeting a (b ++ title_separator ++ c) datetime source ps evs.
Proof.
  split.
  - unfold formatJSON, title_separator; simpl.
    repeat rewrite Fixtures.append_assoc. reflexivity.
  - intros E. injection E as E _.
    apply (append_neq_self a title_separator b); [discriminate | exact E].
Qed.

End UseCase.

Section OverCache.

Variable Inner : Type.
Variable inner_FindByID : MeetingID -> Inner -> Result Meeting * Inner.
Variable New_rejects : MeetingID -> string -> Time -> Source -> list Participant -> option error.
Variable New_events : MeetingID -> string -> Time -> Source -> list DomainEvent.
Variable Format_RFC3339 : Time -> string.
Variable Parse_RFC3339 : string -> option Time.
Variable json_Marshal : Cache.meetingCacheEntry -> option string.
Variable json_Unmarshal : string -> option Cache.meetingCacheEntry.
Variable ErrInvalidMeetingID : error.
Variable Summary : Meeting -> option string.
Variable ActionItems : Meeting -> list ActionItem.

(** The use case wired to the cached repository, the clock read at [now] and
    [now']. *)
Definition export_cached (now now' : Time) :=
  ExportMeeting.Execute (Cache.CachedRepository Inner)
    (Cache.FindByID Inner inner_FindByID New_rejects New_events Format_RFC3339 Parse_RFC3339
       json_Marshal json_Unmarshal now now')
    ErrInvalidMeetingID Format_RFC3339 Summary ActionItems.

(** X16. A Markdown export answered from the cache has no Participants
    section: it is the header followed by the summary and the action items
    of the rebuilt meeting, whatever participants the meeting had when it was
    fetched; the repository is left as it was. *)
Theorem export_from_cache_has_no_participants (now now' : Time) (id : MeetingID)
    (r : Cache.CachedRepository Inner) (m' : Meeting) :
  id <> EmptyString ->
  Cache.from_cache Inner New_rejects New_events Parse_RFC3339 json_Unmarshal now id r
  = Some m' ->
  export_cached now now' (mkInput id FormatMarkdown) r
  = (Ok (mkOutput (formatMarkdown Format_RFC3339 Summary ActionItems m') FormatMarkdown), r) /\
  participants_block m' = EmptyString /\
  formatMarkdown Format_RFC3339 Summary ActionItems m'
  = markdown_header Format_RFC3339 m' ++ summary_block Summary m'
    ++ action_items_block ActionItems m'.
Proof.
  intros Hid Hhit.
  assert (Hp : Participants m' = []).
  { unfold Cache.from_cache in Hhit.
    destruct (Cache.get Inner now (Cache.cacheKey id) r); [|discriminate].
    destruct (json_Unmarshal s); [|discriminate].
    unfold Cache.New in Hhit. destruct (New_rejects _ _ _ _ _); [discriminate|].
    injection Hhit as <-. reflexivity. }
  split; [|split].
  - unfold export_cached, ExportMeeting.Execute. cbn [in_MeetingID in_Format].
    destruct (String.eqb_spec id EmptyString); [contradiction|].
    unfold Cache.FindByID. rewrite Hhit. reflexivity.
  - unfold participants_block. rewrite Hp. reflexivity.
  - unfold formatMarkdown, participants_block. rewrite Hp. reflexivity.
Qed.

End OverCache.

Lemma export_from_cache_has_no_participants_witness :
  export_cached Fixtures.mockRepo Fixtures.mock_FindByID Fixtures.New_rejects
    Fixtures.New_events Fixtures.Format_RFC3339 Fixtures.Parse_RFC3339 Fixtures.json_Marshal
    Fixtures.json_Unmarshal "invalid meeting id" (fun _ => None) (fun _ => [])
    (Fixtures.t0 + Fixtures.minute) (Fixtures.t0 + Fixtures.minute)
    (mkInput "m-1" FormatMarkdown) (CacheExamples.warmed [])
  = (Ok (mkOutput
           (formatMarkdown Fixtures.Format_RFC3339 (fun _ => None) (fun _ => [])
              CacheExamples.rebuilt) FormatMarkdown),
     CacheExamples.warmed []) /\
  participants_block CacheExamples.rebuilt = EmptyString /\
  participants_block Fixtures.sprint_planning <> EmptyString.
Proof.
  destruct (export_from_cache_has_no_participants Fixtures.mockRepo Fixtures.mock_FindByID
              Fixtures.New_rejects Fixtures.New_events Fixtures.Format_RFC3339
              Fixtures.Parse_RFC3339 Fixtures.json_Marshal Fixtures.json_Unmarshal
              "invalid meeting id" (fun _ => None) (fun _ => [])
              (Fixtures.t0 + Fixtures.minute) (Fixtures.t0 + Fixtures.minute) "m-1"
              (CacheExamples.warmed []) CacheExamples.rebuilt)
    as (H1 & H2 & _).
  - discriminate.
  - vm_compute; reflexivity.
  - split; [exact H1|]. split; [exact H2|]. vm_compute. discriminate.
Defined.

End ExportMeetingSpec.

(** ** Webhook handler (package webhook, src/unnamed/part_007)

    The handler that receives Granola's webhooks, runs a Sync through the
    repository port and hands the events to the event dispatcher. *)

Module Webhook.
Import Domain.

(** What [ServeHTTP] reads of a request: the method, the body ([None] when
    reading it fails) and the X-Granola-Signature header (empty when absent). *)
Record Request := mkRequest {
  Method : string;
  Body : option string;
  Signature : string
}.

(** [GranolaWebhookPayload], as the handler and its tests use it. *)
Record GranolaWebhookPayload := mkPayload {
  Event : string;
  MeetingID : string;
  Timestamp : Time
}.

(** [Handler]: the secret, and whether a dispatcher is wired (non-nil). *)
Record Handler := mkHandler {
  secret : string;
  has_dispatcher : bool
}.

Record Response := mkResponse {
  Code : Z;
  Message : string
}.

(** What a request sets off, in order. *)
Inductive Effect :=
| SyncCalled (since : Time)
| DispatchCalled (events : list DomainEvent)
| Logged (line : string).

Definition StatusOK : Z := 200.
Definition StatusBadRequest : Z := 400.
Definition StatusUnauthorized : Z := 401.
Definition StatusMethodNotAllowed : Z := 405.

Section Handler.

(** The state behind the use case and the dispatcher. *)
Variable World : Type.

(** [meetingapp.SyncMeetings.Execute] with [Since] set, down to its events. *)
Variable syncUC_Execute : Time -> World -> Result (list DomainEvent) * World.

(** [domain.EventDispatcher.Dispatch]. *)
Variable dispatcher_Dispatch : list DomainEvent -> World -> option error * World.

(** Hex of HMAC-SHA256 of a body under a key. *)
Variable hmac_sha256_hex : string -> string -> string.

(** [json.Unmarshal] at type [GranolaWebhookPayload]. *)
Variable json_Unmarshal : string -> option GranolaWebhookPayload.

Definition validSignature (h : Handler) (body signature : string) : bool :=
  String.eqb (hmac_sha256_hex (secret h) body) signature.

Definition handleSync (h : Handler) (payload : GranolaWebhookPayload) (w : World)
    : list Effect * World :=
  let since := Timestamp payload in
  let (out, w1) := syncUC_Execute since w in
  match out with
  | Err e =>
      ([SyncCalled since;
        Logged ("webhook: sync failed for " ++ Event payload ++ ": " ++ e)], w1)
  | Ok events =>
      match events with
      | [] => ([SyncCalled since], w1)
      | _ :: _ =>
          if has_dispatcher h then
            let (failure, w2) := dispatcher_Dispatch events w1 in
            match failure with
            | Some e =>
                ([SyncCalled since; DispatchCalled events;
                  Logged ("webhook: dispatch failed: " ++ e)], w2)
            | None => ([SyncCalled since; DispatchCalled events], w2)
            end
          else ([SyncCalled since], w1)
      end
  end.

Definition ServeHTTP (h : Handler) (r : Request) (w : World)
    : Response * list Effect * World :=
  if negb (String.eqb (Method r) "POST") then
    (mkResponse StatusMethodNotAllowed "method not allowed", [], w)
  else
    match Body r with
    | None => (mkResponse StatusBadRequest "failed to read body", [], w)
    | Some body =>
        if negb (String.eqb (secret h) EmptyString)
           && negb (validSignature h body (Signature r)) then
          (mkResponse StatusUnauthorized "invalid signature", [], w)
        else
          match json_Unmarshal body with
          | None => (mkResponse StatusBadRequest "invalid JSON payload", [], w)
          | Some payload =>
              if String.eqb (Event payload) "meeting.created"
                 || String.eqb (Event payload) "transcript.ready" then
                let (effects, w') := handleSync h payload w in
                (mkResponse StatusOK EmptyString, effects, w')
              else (mkResponse StatusOK EmptyString, [], w)
          end
    end.

Definition code (h : Handler) (r : Request) (w : World) : Z :=
  Code (fst (fst (ServeHTTP h r w))).

Definition effects (h : Handler) (r : Request) (w : World) : list Effect :=
  snd (fst (ServeHTTP h r w)).

(** A request is authentic when no secret is set or its signature is the
    HMAC of its body. *)
Definition authentic (h : Handler) (r : Request) : Prop :=
  secret h = EmptyString \/
  exists body, Body r = Some body /\ hmac_sha256_hex (secret h) body = Signature r.

(** X17. A request that is refused does nothing: whenever the answer is not
    200, no Sync was run, nothing was dispatched or logged and the state is
    untouched.  Conversely a request that set anything off was a POST, was
    authentic, and carried a meeting.created or transcript.ready event. *)
Theorem refused_request_has_no_effect (h : Handler) (r : Request) (w : World) :
  (code h r w <> StatusOK -> effects h r w = [] /\ snd (ServeHTTP h r w) = w) /\
  (effects h r w <> [] ->
   Method r = "POST" /\ authentic h r /\
   exists body payload,
     Body r = Some body /\ json_Unmarshal body = Some payload /\
     (Event payload = "meeting.created" \/ Event payload = "transcript.ready")).
Proof.
  unfold code, effects, authentic, ServeHTTP, validSignature.
  destruct (String.eqb_spec (Method r) "POST") as [Hm|Hm]; simpl;
    [|split; [intros _; split; reflexivity | intros H; contradiction]].
  destruct (Body r) as [body|]; simpl;
    [|split; [intros _; split; reflexivity | intros H; contradiction]].
  destruct (String.eqb_spec (secret h) EmptyString) as [Hs|Hs]; simpl.
  - destruct (json_Unmarshal body) as [payload|] eqn:Hj; simpl;
      [|split; [intros _; split; reflexivity | intros H; contradiction]].
    destruct (String.eqb_spec (Event payload) "meeting.created") as [E1|E1]; simpl.
    + destruct (handleSync h payload w) as [effs w']; simpl.
      split; [intros H; contradiction|]. intros _.
      split; [exact Hm|]. split; [left; exact Hs|].
      exists body, payload. repeat split; auto.
    + destruct (String.eqb_spec (Event payload) "transcript.ready") as [E2|E2]; simpl.
      * destruct (handleSync h payload w) as [effs w']; simpl.
        split; [intros H; contradiction|]. intros _.
        split; [exact Hm|]. split; [left; exact Hs|].
        exists body, payload. repeat split; auto.
      * split; [intros H; contradiction | intros H; contradiction].
  - destruct (String.eqb_spec (hmac_sha256_hex (secret h) body) (Signature r)) as [Hsig|Hsig];
      simpl; [|split; [intros _; split; reflexivity | intros H; contradiction]].
    destruct (json_Unmarshal body) as [payload|] eqn:Hj; simpl;
      [|split; [intros _; split; reflexivity | intros H; contradiction]].
    destruct (String.eqb_spec (Event payload) "meeting.created") as [E1|E1]; simpl.
    + destruct (handleSync h payload w) as [effs w']; simpl.
      split; [intros H; contradiction|]. intros _.
      split; [exact Hm|]. split; [right; exists body; auto|].
      exists body, payload. repeat split; auto.
    + destruct (String.eqb_spec (Event payload) "transcript.ready") as [E2|E2]; simpl.
      * destruct (handleSync h payload w) as [effs w']; simpl.
        split; [intros H; contradiction|]. intros _.
        split; [exact Hm|]. split; [right; exists body; auto|].
        exists body, payload. repeat split; auto.
      * split; [intros H; contradiction | intros H; contradiction].
Qed.

(** X18. Once a POST is authentic and its body decodes, the answer is 200
    whatever the Sync and the dispatcher do: a failing Sync or a failing
    Dispatch is logged and nothing more.  For the two handled events Sync is
    run exactly once, with the payload's timestamp as since; the dispatcher is
    called, once and with the events Sync returned, exactly when Sync
    succeeded with at least one event and a dispatcher is wired. *)
Theorem accepted_request_is_always_200 (h : Handler) (r : Request) (w : World)
    (body : string) (payload : GranolaWebhookPayload) :
  Method r = "POST" ->
  Body r = Some body ->
  authentic h r ->
  json_Unmarshal body = Some payload ->
  code h r w = StatusOK /\
  (Event payload = "meeting.created" \/ Event payload = "transcript.ready" ->
   List.filter (fun e => match e with SyncCalled _ => true | _ => false end) (effects h r w)
   = [SyncCalled (Timestamp payload)] /\
   forall events,
     (In (DispatchCalled events) (effects h r w) <->
      fst (syncUC_Execute (Timestamp payload) w) = Ok events /\ events <> [] /\
      has_dispatcher h = true)) /\
  (Event payload <> "meeting.created" -> Event payload <> "transcript.ready" ->
   effects h r w = [] /\ snd (ServeHTTP h r w) = w).
Proof.
  intros Hm Hb Hauth Hj.
  assert (Hgate : negb (String.eqb (secret h) EmptyString)
                  && negb (validSignature h body (Signature r)) = false).
  { unfold validSignature. destruct Hauth as [Hs|[body' [Hb' Hsig]]].
    - rewrite Hs. reflexivity.
    - rewrite Hb in Hb'. injection Hb' as <-. rewrite Hsig, String.eqb_refl.
      apply andb_false_r. }
  unfold code, effects, ServeHTTP. rewrite Hm, Hb.
  rewrite String.eqb_refl. cbn [negb]. rewrite Hgate, Hj.
  split; [|split].
  - destruct (String.eqb (Event payload) "meeting.created"
              || String.eqb (Event payload) "transcript.ready"); [|reflexivity].
    destruct (handleSync h payload w); reflexivity.
  - intros Hev.
    assert (E : String.eqb (Event payload) "meeting.created"
                || String.eqb (Event payload) "transcript.ready" = true).
    { destruct Hev as [-> | ->]; [reflexivity | apply orb_true_r]. }
    rewrite E. unfold handleSync.
    destruct (syncUC_Execute (Timestamp payload) w) as [[events|e] w1]; simpl.
    + destruct events as [|ev events]; simpl.
      * split; [reflexivity|]. intros evs. split.
        { intros [H|[]]; discriminate. }
        { intros [[= <-] [Hne _]]. contradiction. }
      * destruct (has_dispatcher h); simpl.
        { destruct (dispatcher_Dispatch (ev :: events) w1) as [[e|] w2]; simpl.
          - split; [reflexivity|]. intros evs. split.
            + intros [H|[H|[H|[]]]]; try discriminate.
              injection H as <-. repeat split; [discriminate].
            + intros [[= <-] _]. right; left; reflexivity.
          - split; [reflexivity|]. intros evs. split.
            + intros [H|[H|[]]]; try discriminate.
              injection H as <-. repeat split; [discriminate].
            + intros [[= <-] _]. right; left; reflexivity. }
        { split; [reflexivity|]. intros evs. split.
          - intros [H|[]]; discriminate.
          - intros [_ [_ H]]. discriminate. }
    + split; [reflexivity|]. intros evs. split.
      * intros [H|[H|[]]]; discriminate.
      * intros [H _]. discriminate.
  - intros N1 N2.
    apply String.eqb_neq in N1, N2. rewrite N1, N2. split; reflexivity.
Qed.

End Handler.

(** A stand-in for the HMAC, a decoder that knows two bodies, a Sync that
    fails and a dispatcher that is never reached. *)
Definition toy_hmac (key body : string) : string := key ++ ":" ++ body.

Definition toy_decode (body : string) : option GranolaWebhookPayload :=
  if String.eqb body "created" then Some (mkPayload "meeting.created" "m-1" 1767225600000000000)
  else if String.eqb body "deleted" then Some (mkPayload "meeting.deleted" "m-1" 1767225600000000000)
  else None.

Definition sync_down (since : Time) (w : nat) : Result (list DomainEvent) * nat :=
  (Err "upstream unavailable", S w).

Definition dispatch_ok (events : list DomainEvent) (w : nat) : option error * nat :=
  (None, S w).

Lemma accepted_request_is_always_200_witness :
  code nat sync_down dispatch_ok toy_hmac toy_decode (mkHandler "s3cret" true)
    (mkRequest "POST" (Some "created") "s3cret:created") 0%nat = StatusOK /\
  effects nat sync_down dispatch_ok toy_hmac toy_decode (mkHandler "s3cret" true)
    (mkRequest "POST" (Some "created") "s3cret:created") 0%nat
  = [SyncCalled 1767225600000000000;
     Logged "webhook: sync failed for meeting.created: upstream unavailable"].
Proof.
  split; [|reflexivity].
  refine (proj1 (accepted_request_is_always_200 nat sync_down dispatch_ok toy_hmac toy_decode
                   (mkHandler "s3cret" true)
                   (mkRequest "POST" (Some "created") "s3cret:created") 0%nat
                   "created" (mkPayload "meeting.created" "m-1" 1767225600000000000)
                   eq_refl eq_refl _ eq_refl)).
  right. exists "created". split; reflexivity.
Defined.

End Webhook.

(** ** The sync command (internal/interfaces/cli/sync.go, [newSyncCmd])

    The command line caller of the Sync use case and of the event
    dispatcher. *)

Module CliSync.
Import Domain.

(** [Dependencies], as far as the command goes: whether an event dispatcher
    is wired (non-nil). *)
Record Dependencies := mkDeps {
  has_EventDispatcher : bool
}.

Inductive Effect :=
| SyncCalled (since : option Time)
| DispatchCalled (events : list DomainEvent).

(** What running the command leaves: its error, what it wrote to [deps.Out],
    the calls it made. *)
Record Ran (World : Type) := mkRan {
  err : option error;
  out : string;
  effects : list Effect;
  world : World
}.
Arguments mkRan {World}.
Arguments err {World}.
Arguments out {World}.
Arguments effects {World}.
Arguments world {World}.

Section Command.

Variable World : Type.

(** [meetingapp.SyncMeetings.Execute], down to its events. *)
Variable SyncMeetings_Execute : option Time -> World -> Result (list DomainEvent) * World.

(** [domain.EventDispatcher.Dispatch]. *)
Variable EventDispatcher_Dispatch : list DomainEvent -> World -> option error * World.

(** [time.Parse] with layout [time.RFC3339] and with layout "2006-01-02". *)
Variable Parse_RFC3339 : string -> Result Time.
Variable Parse_date : string -> Result Time.

(** The verb [%d] of package fmt on a length. *)
Variable fmt_d : nat -> string.

Definition nl : string := String (Ascii.ascii_of_nat 10) EmptyString.

(** The flag --since, empty when not given. *)
Definition parse_since (since : string) : Result (option Time) :=
  if String.eqb since EmptyString then Ok None
  else
    match Parse_RFC3339 since with
    | Ok t => Ok (Some t)
    | Err _ =>
        match Parse_date since with
        | Ok t => Ok (Some t)
        | Err e => Err ("invalid --since date: " ++ e)
        end
    end.

Definition synced_line (events : list DomainEvent) : string :=
  "Synced " ++ fmt_d (length events) ++ " meeting event(s)" ++ nl.

Definition RunE (deps : Dependencies) (since : string) (w : World) : Ran World :=
  match parse_since since with
  | Err e => mkRan (Some e) EmptyString [] w
  | Ok input_since =>
      let (res, w1) := SyncMeetings_Execute input_since w in
      match res with
      | Err e => mkRan (Some ("sync failed: " ++ e)) EmptyString [SyncCalled input_since] w1
      | Ok events =>
          if has_EventDispatcher deps && negb (Nat.eqb (length events) 0) then
            let (failure, w2) := EventDispatcher_Dispatch events w1 in
            match failure with
            | Some e =>
                mkRan None
                  ("Warning: event dispatch failed: " ++ e ++ nl ++ synced_line events)
                  [SyncCalled input_since; DispatchCalled events] w2
            | None =>
                mkRan None (synced_line events)
                  [SyncCalled input_since; DispatchCalled events] w2
            end
          else mkRan None (synced_line events) [SyncCalled input_since] w1
      end
  end.

(** X19. The --since flag: empty means no lower bound; otherwise the RFC 3339
    reading is tried first and the date reading second.  When both fail the
    command stops with the error of the date reading, before any Sync: it has
    written nothing and called nothing. *)
Theorem invalid_since_stops_before_sync (deps : Dependencies) (since : string) (w : World) :
  (since = EmptyString ->
   exists rest, effects (RunE deps since w) = SyncCalled None :: rest) /\
  (forall t, since <> EmptyString -> Parse_RFC3339 since = Ok t ->
     exists rest, effects (RunE deps since w) = SyncCalled (Some t) :: rest) /\
  (forall e t, since <> EmptyString -> Parse_RFC3339 since = Err e ->
     Parse_date since = Ok t ->
     exists rest, effects (RunE deps since w) = SyncCalled (Some t) :: rest) /\
  (forall e e', since <> EmptyString -> Parse_RFC3339 since = Err e ->
     Parse_date since = Err e' ->
     RunE deps since w = mkRan (Some ("invalid --since date: " ++ e')) EmptyString [] w).
Proof.
  assert (Hrun : forall s, parse_since since = Ok s ->
            exists rest, effects (RunE deps since w) = SyncCalled s :: rest).
  { intros s Hs. unfold RunE. rewrite Hs.
    destruct (SyncMeetings_Execute s w) as [[events|e] w1]; [|eexists; reflexivity].
    destruct (has_EventDispatcher deps && negb (Nat.eqb (length events) 0));
      [|eexists; reflexivity].
    destruct (EventDispatcher_Dispatch events w1) as [[e|] w2]; eexists; reflexivity. }
  split; [|split; [|split]].
  - intros ->. apply Hrun. reflexivity.
  - intros t Hne Hp. apply Hrun. unfold parse_since.
    destruct (String.eqb_spec since EmptyString); [contradiction|]. rewrite Hp. reflexivity.
  - intros e t Hne Hp Hd. apply Hrun. unfold parse_since.
    destruct (String.eqb_spec since EmptyString); [contradiction|]. rewrite Hp, Hd. reflexivity.
  - intros e e' Hne Hp Hd. unfold RunE, parse_since.
    destruct (String.eqb_spec since EmptyString); [contradiction|]. rewrite Hp, Hd. reflexivity.
Qed.

(** X20. Once the Sync has succeeded the command succeeds: it reports no
    error and its output ends with the line counting the synced events,
    whether or not the dispatch worked; a failed dispatch only puts a warning
    line before it.  The dispatcher is called exactly when one is wired and
    there is at least one event, with the events of the Sync. *)
Theorem dispatch_failure_is_only_a_warning (deps : Dependencies) (since : string) (w w1 : World)
    (input_since : option Time) (events : list DomainEvent) :
  parse_since since = Ok input_since ->
  SyncMeetings_Execute input_since w = (Ok events, w1) ->
  err (RunE deps since w) = None /\
  (exists before, out (RunE deps since w) = before ++ synced_line events) /\
  (In (DispatchCalled events) (effects (RunE deps since w)) <->
   has_EventDispatcher deps = true /\ events <> []) /\
  (forall e w2,
     has_EventDispatcher deps = true -> events <> [] ->
     EventDispatcher_Dispatch events w1 = (Some e, w2) ->
     out (RunE deps since w)
     = "Warning: event dispatch failed: " ++ e ++ nl ++ synced_line events).
Proof.
  intros Hs Hsync. unfold RunE. rewrite Hs, Hsync.
  destruct (has_EventDispatcher deps) eqn:Hd; cbn [andb].
  - destruct events as [|ev events]; cbn [length Nat.eqb negb].
    + split; [reflexivity|]. split; [exists EmptyString; reflexivity|]. split.
      * split; [intros [H|[]]; discriminate | intros [_ H]; contradiction].
      * intros e w2 _ H. contradiction.
    + destruct (EventDispatcher_Dispatch (ev :: events) w1) as [[e|] w2] eqn:Hdisp;
        cbn [err out effects].
      * split; [reflexivity|]. split.
        { exists ("Warning: event dispatch failed: " ++ e ++ nl).
          rewrite !Fixtures.append_assoc. reflexivity. }
        split.
        { split; [intros _; split; [reflexivity | discriminate]
                 | intros _; right; left; reflexivity]. }
        intros e0 w0 _ _ [= <- <-]. reflexivity.
      * split; [reflexivity|]. split; [exists EmptyString; reflexivity|]. split.
        { split; [intros _; split; [reflexivity | discriminate]
                 | intros _; right; left; reflexivity]. }
        intros e0 w0 _ _ H. discriminate.
  - cbn [err out effects]. split; [reflexivity|].
    split; [exists EmptyString; reflexivity|]. split.
    + split; [intros [H|[]]; discriminate | intros [H _]; discriminate].
    + intros e w2 H. discriminate.
Qed.

End Command.

Definition no_parse (s : string) : Result Time := Err "cannot parse".
Definition one_event (since : option Time) (w : nat) : Result (list DomainEvent) * nat :=
  (Ok [MeetingCreated "m-1" "Test" 1], S w).
Definition dispatch_down (events : list DomainEvent) (w : nat) : option error * nat :=
  (Some "outbox: disk full", S w).
Definition one_digit (n : nat) : string :=
  String (Ascii.ascii_of_nat (48 + n)) EmptyString.

Lemma dispatch_failure_is_only_a_warning_witness :
  err (RunE nat one_event dispatch_down no_parse no_parse one_digit (mkDeps true) EmptyString
         0%nat) = None /\
  out (RunE nat one_event dispatch_down no_parse no_parse one_digit (mkDeps true) EmptyString
         0%nat)
  = "Warning: event dispatch failed: outbox: disk full" ++ nl
    ++ "Synced 1 meeting event(s)" ++ nl.
Proof.
  split; [|reflexivity].
  refine (proj1 (dispatch_failure_is_only_a_warning nat one_event dispatch_down no_parse
                   no_parse one_digit (mkDeps true) EmptyString 0%nat 1%nat None
                   [MeetingCreated "m-1" "Test" 1] eq_refl eq_refl)).
Defined.

End CliSync.

(** ** Granola API client (package granola, src/unnamed/part_006)

    The transport under the repositories: [Client.get], through which every
    call of the client goes. *)

Module GranolaClient.

Record Client := mkClient {
  baseURL : string;
  token : string
}.

(** The request [get] builds: the URL and the two headers it sets. *)
Record HTTPRequest := mkHTTPRequest {
  URL : string;
  Authorization : option string;
  Accept : string
}.

Record HTTPResponse := mkHTTPResponse {
  StatusCode : Z;
  ResponseBody : string
}.

Section Transport.

(** The type decoded into, and [json.NewDecoder(body).Decode] at that type. *)
Variable Target : Type.
Variable Decode : string -> Result Target.

(** [http.NewRequestWithContext]: the error it has for a URL, if any. *)
Variable NewRequest_error : string -> option error.

(** [httpClient.Do]. *)
Variable Do : HTTPRequest -> Result HTTPResponse.

(** [url.Values.Encode] on the parameters set, and [%d] of package fmt. *)
Variable Encode : list (string * string) -> string.
Variable fmt_d : Z -> string.

(** The sentinel errors of the package. *)
Variable ErrNotFound : error.
Variable ErrRateLimited : error.
Variable ErrUnauthorized : error.

Definition request (c : Client) (path : string) (params : list (string * string))
    : HTTPRequest :=
  mkHTTPRequest
    (baseURL c ++ path ++ match params with
                          | [] => EmptyString
                          | _ :: _ => "?" ++ Encode params
                          end)
    (if String.eqb (token c) EmptyString then None else Some ("Bearer " ++ token c))
    "application/json".

Definition get (c : Client) (path : string) (params : list (string * string))
    : Result Target :=
  let req := request c path params in
  match NewRequest_error (URL req) with
  | Some e => Err ("creating request: " ++ e)
  | None =>
      match Do req with
      | Err e => Err ("executing request: " ++ e)
      | Ok resp =>
          if StatusCode resp =? 404 then Err ErrNotFound
          else if StatusCode resp =? 429 then Err ErrRateLimited
          else if StatusCode resp =? 401 then Err ErrUnauthorized
          else if 400 <=? StatusCode resp then
            Err ("api error (status " ++ fmt_d (StatusCode resp) ++ "): " ++ ResponseBody resp)
          else
            match Decode (ResponseBody resp) with
            | Err e => Err ("decoding response: " ++ e)
            | Ok v => Ok v
            end
      end
  end.

(** X21. [get] succeeds exactly when the request could be built, the
    transport answered, the status is below 400 and the body decodes; its
    value is then the decoded body.  A body that comes with a status of 400
    or more is never decoded: 404, 429 and 401 give the three sentinel
    errors whatever the body says. *)
Theorem get_succeeds_iff (c : Client) (path : string) (params : list (string * string)) :
  (forall v,
     get c path params = Ok v <->
     NewRequest_error (URL (request c path params)) = None /\
     exists resp,
       Do (request c path params) = Ok resp /\ StatusCode resp < 400 /\
       Decode (ResponseBody resp) = Ok v) /\
  (forall resp,
     NewRequest_error (URL (request c path params)) = None ->
     Do (request c path params) = Ok resp ->
     (StatusCode resp = 404 -> get c path params = Err ErrNotFound) /\
     (StatusCode resp = 429 -> get c path params = Err ErrRateLimited) /\
     (StatusCode resp = 401 -> get c path params = Err ErrUnauthorized) /\
     (400 <= StatusCode resp -> exists e, get c path params = Err e)).
Proof.
  unfold get. split.
  - intros v. destruct (NewRequest_error (URL (request c path params))) as [e|].
    { split; [discriminate | intros [H _]; discriminate]. }
    destruct (Do (request c path params)) as [resp|e].
    2:{ split; [discriminate | intros [_ [resp [H _]]]; discriminate]. }
    destruct (Z.eqb_spec (StatusCode resp) 404) as [E1|N1].
    { split; [discriminate | intros [_ [resp' [[= <-] [H _]]]]; lia]. }
    destruct (Z.eqb_spec (StatusCode resp) 429) as [E2|N2].
    { split; [discriminate | intros [_ [resp' [[= <-] [H _]]]]; lia]. }
    destruct (Z.eqb_spec (StatusCode resp) 401) as [E3|N3].
    { split; [discriminate | intros [_ [resp' [[= <-] [H _]]]]; lia]. }
    destruct (Z.leb_spec 400 (StatusCode resp)) as [Hge|Hlt].
    { split; [discriminate | intros [_ [resp' [[= <-] [H _]]]]; lia]. }
    destruct (Decode (ResponseBody resp)) as [v'|e] eqn:Hd.
    + split.
      * intros [= <-]. split; [reflexivity|]. exists resp. repeat split; assumption.
      * intros [_ [resp' [[= <-] [_ Hd']]]]. congruence.
    + split; [discriminate|]. intros [_ [resp' [[= <-] [_ Hd']]]]. congruence.
  - intros resp Hreq Hdo. rewrite Hreq, Hdo.
    split; [intros ->; reflexivity|].
    split; [intros ->; reflexivity|].
    split; [intros ->; reflexivity|].
    intros Hge.
    destruct (StatusCode resp =? 404); [eexists; reflexivity|].
    destruct (StatusCode resp =? 429); [eexists; reflexivity|].
    destruct (StatusCode resp =? 401); [eexists; reflexivity|].
    destruct (Z.leb_spec 400 (StatusCode resp)); [eexists; reflexivity | lia].
Qed.

End Transport.

End GranolaClient.

(** ** Note repository (internal/infrastructure/localstore/note_repository.go)

    The write-side store of agent notes, on the same local database as the
    outbox. *)

Module NoteStore.

(** An agent note, as its getters and [annotation.ReconstructAgentNote]
    show it; it is also the row of table [agent_notes]. *)
Record AgentNote := ReconstructAgentNote {
  ID : string;
  MeetingID : string;
  Author : string;
  Content : string;
  CreatedAt : Time
}.

(** [NoteRepository]: table [agent_notes], rows in rowid order. *)
Record NoteRepository := mkNotes { agent_notes : list AgentNote }.

Definition has_note (id : string) (r : NoteRepository) : bool :=
  existsb (fun n => String.eqb (ID n) id) (agent_notes r).



Section Schema.

(** Whether column id of [agent_notes] is a key (primary key or unique): the
    schema is created by [localstore.InitSchema], which is not among the
    sources, and decides what OR REPLACE does. *)
Variable id_is_key : bool.

(** [annotation.ErrNoteNotFound]. *)
Variable ErrNoteNotFound : error.


(** [FindByID]: SELECT ... WHERE id = ?, first row; no row is
    [sql.ErrNoRows], reported as ErrNoteNotFound. *)
Definition FindByID (id : string) (r : NoteRepository) : Result AgentNote :=
  match List.find (fun n => String.eqb (ID n) id) (agent_notes r) with
  | Some n => Ok n
  | None => Err ErrNoteNotFound
  end.


(** [Delete]: DELETE FROM agent_notes WHERE id = ?; no row affected is
    ErrNoteNotFound. *)
Definition Delete (id : string) (r : NoteRepository) : option error * NoteRepository :=
  if has_note id r
  then (None, mkNotes (List.filter (fun n => negb (String.eqb (ID n) id)) (agent_notes r)))
  else (Some ErrNoteNotFound, r).

Lemma find_filter_other (id id' : string) (l : list AgentNote) :
  id' <> id ->
  List.find (fun n => String.eqb (ID n) id')
            (List.filter (fun n => negb (String.eqb (ID n) id)) l)
  = List.find (fun n => String.eqb (ID n) id') l.
Proof.
  intros Hne. induction l as [|x t IH]; simpl; [reflexivity|].
  destruct (String.eqb_spec (ID x) id) as [E|E]; simpl.
  - destruct (String.eqb_spec (ID x) id') as [E'|E']; [congruence | exact IH].
  - destruct (String.eqb (ID x) id'); [reflexivity | exact IH].
Qed.

Lemma find_filter_same (id : string) (l : list AgentNote) :
  List.find (fun n => String.eqb (ID n) id)
            (List.filter (fun n => negb (String.eqb (ID n) id)) l) = None.
Proof.
  induction l as [|x t IH]; simpl; [reflexivity|].
  destruct (String.eqb (ID x) id) eqn:E; simpl; [exact IH|]. rewrite E. exact IH.
Qed.



(** X22. Delete of an id the table does not hold reports ErrNoteNotFound and
    changes nothing.  Delete of an id it holds reports no error; afterwards
    FindByID of that id is ErrNoteNotFound, a second Delete of it is
    ErrNoteNotFound, and every other note is found as before. *)
Theorem Delete_outcomes (id : string) (r : NoteRepository) :
  (has_note id r = false -> Delete id r = (Some ErrNoteNotFound, r)) /\
  (has_note id r = true ->
   fst (Delete id r) = None /\
   FindByID id (snd (Delete id r)) = Err ErrNoteNotFound /\
   fst (Delete id (snd (Delete id r))) = Some ErrNoteNotFound) /\
  (forall id', id' <> id -> FindByID id' (snd (Delete id r)) = FindByID id' r).
Proof.
  unfold Delete. split; [|split].
  - intros ->. reflexivity.
  - intros Hhas. rewrite Hhas. simpl.
    assert (Hgone : has_note id
              (mkNotes (List.filter (fun n => negb (String.eqb (ID n) id)) (agent_notes r)))
              = false).
    { unfold has_note; simpl. destruct (existsb _ _) eqn:E; [|reflexivity].
      apply existsb_exists in E. destruct E as [n [Hin Hn]].
      apply filter_In in Hin. destruct Hin as [_ Hneg]. rewrite Hn in Hneg. discriminate. }
    split; [reflexivity|]. split.
    + unfold FindByID; simpl. rewrite find_filter_same. reflexivity.
    + rewrite Hgone. reflexivity.
  - intros id' Hne. destruct (has_note id r); [|reflexivity].
    unfold FindByID; simpl. rewrite (find_filter_other id id' _ Hne). reflexivity.
Qed.






End Schema.



End NoteStore.
